(** * train_pets.py: the Pets dataset, its loader and the training loop

    A shallow embedding of [pytorch/train_pets.py].  Python exceptions are
    an error monad, [re.match] is a small backtracking matcher for greedy
    quantified character classes, the class-level [vocab_map] dict is a
    [gmap], and the training loop threads its counters, the readings of
    [perf_counter] and the calls of [wandb.log] through an explicit state.

    Numbers: Python's [int / int] and [float] arithmetic is modelled by exact
    rationals ([Q]); a metric below is the rational that Python rounds to
    binary64.  [batch_size] and [epochs] are [nat]: a non-positive
    [batch_size] is rejected by [DataLoader], a negative [epochs] gives an
    empty [range]. *)

From Stdlib Require Import ZArith QArith Qround Lia String Ascii SpecFloat.
From stdpp Require Import base list gmap strings pretty.

Close Scope Q_scope.
Open Scope nat_scope.

(** ** Exceptions *)

Inductive exn : Type :=
  | IndexError                  (* list index out of range *)
  | TypeError                   (* 'NoneType' object is not subscriptable *)
  | KeyError (key : string)     (* dict lookup of an absent key *)
  | ValueError                  (* DataLoader: batch_size must be positive *)
  | ZeroDivisionError
  | OSError.                    (* PIL could not open or decode the file *)

Inductive Result (A : Type) : Type :=
  | Ok (a : A)
  | Raise (e : exn).
Arguments Ok {A} a.
Arguments Raise {A} e.

#[global] Instance Result_ret : MRet Result := fun _ a => Ok a.
#[global] Instance Result_bind : MBind Result := fun _ _ f m =>
  match m with
  | Ok a => f a
  | Raise e => Raise e
  end.

Definition is_Ok {A} (r : Result A) : Prop := exists a, r = Ok a.

(** ** [re.match] for sequences of greedy quantified character classes *)

Module Re.

Inductive cclass : Type :=
  | Range (lo hi : ascii)           (* a-z *)
  | Lit (c : ascii)                 (* _ *)
  | Union (a b : cclass).           (* [a-zA-Z] *)

Inductive quant : Type :=
  | Plus                            (* + : one or more, greedy *)
  | Star.                           (* * : zero or more, greedy *)

(** A pattern is a sequence of quantified classes; [re.match] anchors it
    at the start of the string, as the leading [^] does too. *)
Definition regex : Type := list (cclass * quant).

Fixpoint accepts (c : cclass) (x : ascii) : bool :=
  match c with
  | Range lo hi =>
      (nat_of_ascii lo <=? nat_of_ascii x) && (nat_of_ascii x <=? nat_of_ascii hi)
  | Lit y => Ascii.eqb x y
  | Union a b => accepts a x || accepts b x
  end.

Definition min_count (q : quant) : nat :=
  match q with Plus => 1 | Star => 0 end.

(** Length of the longest prefix of [s] made of characters of [p]. *)
Fixpoint run (p : ascii -> bool) (s : list ascii) : nat :=
  match s with
  | x :: s' => if p x then S (run p s') else 0
  | [] => 0
  end.

(** The greedy loop: try [k] repetitions, then [k-1], ... down to [lo],
    and keep the first count for which the rest of the pattern matches. *)
Fixpoint backtrack (lo k : nat) (cont : nat -> option nat) : option nat :=
  if k <? lo then None
  else match cont k with
       | Some n => Some (k + n)
       | None => match k with
                 | 0 => None
                 | S k' => backtrack lo k' cont
                 end
       end.

(** Number of characters matched at the start of [s], if the pattern
    matches there. *)
Fixpoint match_here (r : regex) (s : list ascii) : option nat :=
  match r with
  | [] => Some 0
  | (c, q) :: r' =>
      backtrack (min_count q) (run (accepts c) s)
                (fun k => match_here r' (drop k s))
  end.

(** [re.match(r, s)]: [None], or the match object, of which only group 0
    (the matched text) is kept. *)
Definition re_match (r : regex) (s : string) : option string :=
  let cs := list_ascii_of_string s in
  match match_here r cs with
  | Some n => Some (string_of_list_ascii (take n cs))
  | None => None
  end.

(** The words of a pattern, independently of any matching strategy. *)
Fixpoint in_lang (r : regex) (w : list ascii) : Prop :=
  match r with
  | [] => w = []
  | (c, q) :: r' =>
      exists w1 w2, w = w1 ++ w2 /\ Forall (fun x => accepts c x = true) w1 /\
                    min_count q <= length w1 /\ in_lang r' w2
  end.

End Re.

(** ** class Pets *)

Module Pets.
Import Re.

Definition letters : cclass := Union (Range "a" "z") (Range "A" "Z").

(** [pat = r'(^[a-zA-Z]+_*[a-zA-Z]+)'] *)
Definition pat : regex := [(letters, Plus); (Lit "_", Star); (letters, Plus)].

Definition vocab : list string :=
  ["Abyssinian"; "Bengal"; "Birman"; "Bombay"; "British_Shorthair"; "Egyptian_Mau"; "Maine_Coon";
   "Persian"; "Ragdoll"; "Russian_Blue"; "Siamese"; "Sphynx"; "american_bulldog"; "american_pit";
   "basset_hound"; "beagle"; "boxer"; "chihuahua"; "english_cocker"; "english_setter"; "german_shorthaired";
   "great_pyrenees"; "havanese"; "japanese_chin"; "keeshond"; "leonberger"; "miniature_pinscher"; "newfoundland";
   "pomeranian"; "pug"; "saint_bernard"; "samoyed"; "scottish_terrier"; "shiba_inu"; "staffordshire_bull";
   "wheaten_terrier"; "yorkshire_terrier"]%string.

(** Character classes used to describe a label token. *)
Definition is_letter (x : ascii) : bool := accepts letters x.
Definition is_underscore (x : ascii) : bool := Ascii.eqb x "_".
Definition is_digit (x : ascii) : bool := accepts (Range "0" "9") x.

(** [enumerate(l)], counting from [i]. *)
Fixpoint enumerate_from {A} (i : nat) (l : list A) : list (nat * A) :=
  match l with
  | [] => []
  | v :: l' => (i, v) :: enumerate_from (S i) l'
  end.

(** [{v:i for i,v in enumerate(l)}]: entries are inserted from left to
    right, a later duplicate overwrites an earlier one. *)
Definition dict_of_enumerate (l : list string) : gmap string nat :=
  foldl (fun m iv => <[iv.2 := iv.1]> m) ∅ (enumerate_from 0 l).

Definition vocab_map : gmap string nat := dict_of_enumerate vocab.

(** A [pathlib.Path], as its components; [name] is the last one. *)
Definition Path : Type := list string.

Fixpoint name (p : Path) : string :=
  match p with
  | [] => ""
  | [x] => x
  | _ :: p' => name p'
  end.

(** [l[idx]] on a Python list: a negative index counts from the end. *)
Definition list_getitem {A} (l : list A) (idx : Z) : Result A :=
  let n := Z.of_nat (length l) in
  let i := if (idx <? 0)%Z then (idx + n)%Z else idx in
  if (i <? 0)%Z then Raise IndexError
  else match l !! Z.to_nat i with
       | Some x => Ok x
       | None => Raise IndexError
       end.

(** [m[0]] on the result of [re.match]: subscripting [None] raises. *)
Definition group0 (m : option string) : Result string :=
  match m with
  | Some s => Ok s
  | None => Raise TypeError
  end.

(** [d[k]] on a dict. *)
Definition dict_getitem (d : gmap string nat) (k : string) : Result nat :=
  match d !! k with
  | Some v => Ok v
  | None => Raise (KeyError k)
  end.

(** The fields set by [__init__]: [files] is what the glob
    ["images/*.jpg"] found under the dataset directory. *)
Record t : Type := Build {
  files : list Path;
  image_size : nat
}.

(** The label half of [__getitem__]:
    [self.vocab_map[re.match(self.pat, file.name)[0]]]. *)
Definition label_of (file : Path) : Result nat :=
  tok ← group0 (re_match pat (name file));
  dict_getitem vocab_map tok.

Section Dataset.
(** The image half of a sample is PIL and torchvision:
    [tfms(load_image(str(file)))] for a dataset built with a given
    [image_size]; it may fail on an unreadable file. *)
Context {Tensor : Type}.
Variable tfms_load_image : nat -> Path -> Result Tensor.

(** [__getitem__]: the tuple is evaluated left to right, the image
    first, then the label. *)
Definition __getitem__ (self : t) (idx : Z) : Result (Tensor * nat) :=
  file ← list_getitem (files self) idx;
  img ← tfms_load_image (image_size self) file;
  label ← label_of file;
  Ok (img, label).

End Dataset.

Definition __len__ (self : t) : nat := length (files self).

End Pets.

(** ** torch.utils.data.DataLoader *)

Module Loader.

(** Modelled from the spec: [torch.utils.data.DataLoader] is a library
    class, absent from the repository.  [get_dataloader] calls it with
    [batch_size] and no [shuffle] or [drop_last], so (spec 4.2, glossary
    "Batch") its batches take the indices [0 .. len-1] in order, each of
    exactly [batch_size] indices except possibly a shorter last one. *)
Fixpoint BatchSampler {A} (batch_size : nat) (batch : list A) (sampler : list A)
  : list (list A) :=
  match sampler with
  | [] => match batch with [] => [] | _ => [batch] end
  | idx :: sampler' =>
      let batch' := batch ++ [idx] in
      if length batch' =? batch_size
      then batch' :: BatchSampler batch_size [] sampler'
      else BatchSampler batch_size batch' sampler'
  end.

Definition SequentialSampler (n : nat) : list Z := map Z.of_nat (seq 0 n).

Record DataLoader : Type := Build {
  dataset : Pets.t;
  batch_size : nat
}.

(** The index batches of one pass over the loader. *)
Definition batches (dl : DataLoader) : list (list Z) :=
  BatchSampler (batch_size dl) [] (SequentialSampler (Pets.__len__ (dataset dl))).

Section Fetch.
Context {Tensor : Type}.
Variable tfms_load_image : nat -> Pets.Path -> Result Tensor.

(** Fetching a batch: [dataset[i]] for each index, first failure wins;
    collation keeps the samples in order. *)
Definition fetch (dl : DataLoader) (idxs : list Z) : Result (list (Tensor * nat)) :=
  mapM (Pets.__getitem__ tfms_load_image (dataset dl)) idxs.

End Fetch.

End Loader.

(** [get_dataloader]: [Pets(dataset_path, image_size)] over the files found
    there, wrapped in a [DataLoader], which rejects a non-positive batch
    size. *)
Definition get_dataloader (dataset_files : list Pets.Path) (batch_size image_size : nat)
  : Result Loader.DataLoader :=
  let ds := Pets.Build dataset_files image_size in
  if batch_size =? 0 then Raise ValueError
  else Ok (Loader.Build ds batch_size).

(** ** train *)

Definition Qnat (n : nat) : Q := inject_Z (Z.of_nat n).

(** [a / b] on numbers. *)
Definition truediv (a b : Q) : Result Q :=
  if Qeq_bool b 0 then Raise ZeroDivisionError else Ok (a / b)%Q.

(** The binary64 result of [a / b] for two integers that binary64
    represents exactly (below 2^53): the correctly rounded quotient. *)
Definition binary64_truediv (a b : Z) : spec_float :=
  SFdiv 53 1024 (binary_normalize 53 1024 a 0 false)
                (binary_normalize 53 1024 b 0 false).

(** [math.ceil(dataset_len / batch_size)] *)
Definition n_steps_per_epoch (dataset_len batch_size : nat) : Result nat :=
  q ← truediv (Qnat dataset_len) (Qnat batch_size);
  Ok (Z.to_nat (Qceiling q)).

Record Config : Type := mkConfig {
  batch_size : nat;
  epochs : nat;
  image_size : nat
}.

Section Train.
Context {Tensor Model Loss : Type}.
Variable tfms_load_image : nat -> Pets.Path -> Result Tensor.
(** Forward pass, loss, [backward], [optimizer.step], [zero_grad] on one
    batch: the updated model and the loss. *)
Variable fit : Model -> list Tensor -> list nat -> Model * Loss.
(** The [k]-th reading of [perf_counter] in the run. *)
Variable perf_counter : nat -> Q.

(** The [metrics] dict built for a batch. *)
Record Metrics : Type := mkMetrics {
  train_loss : Loss;
  train_epoch : Q;
  train_example_ct : nat;
  samples_per_sec : Q;
  samples_per_sec_epoch : Q
}.

(** What happened at one batch (kept for the proofs): the loop indices,
    [len(images)], the three clock readings, the dict built, and whether
    [wandb.log] was called with it. *)
Record Event : Type := mkEvent {
  ev_epoch : nat;
  ev_step : nat;
  ev_len : nat;
  ev_t0 : Q;
  ev_ti : Q;
  ev_tf : Q;
  ev_metrics : Metrics;
  ev_logged : bool
}.

Record State : Type := mkState {
  example_ct : nat;
  step_ct : nat;
  model : Model;
  clock : nat;                  (* readings of perf_counter taken so far *)
  wandb_log : list Metrics;     (* the calls of wandb.log, oldest first *)
  history : list Event          (* one event per batch processed, oldest first *)
}.

(** The body of the inner loop, lines 160-187, on a fetched batch. *)
Definition batch_body (n_steps epoch : nat) (t0 : Q) (step : nat)
    (batch : list (Tensor * nat)) (st : State) : Result State :=
  let images := batch.*1 in
  let labels := batch.*2 in
  let ti := perf_counter (clock st) in
  let '(model', loss) := fit (model st) images labels in
  let tf := perf_counter (S (clock st)) in
  let example_ct' := example_ct st + length images in
  frac ← truediv (Qnat (step + 1 + n_steps * epoch)) (Qnat n_steps);
  sps ← truediv (Qnat (length images)) (tf - ti)%Q;
  spse ← truediv (Qnat example_ct') (tf - t0)%Q;
  let metrics := mkMetrics loss frac example_ct' sps spse in
  let logged := step + 1 <? n_steps in
  Ok {| example_ct := example_ct';
        step_ct := step_ct st + 1;
        model := model';
        clock := S (S (clock st));
        wandb_log := if logged then wandb_log st ++ [metrics] else wandb_log st;
        history := history st ++
                   [mkEvent epoch step (length images) t0 ti tf metrics logged] |}.

(** [for step, (images, labels) in enumerate(train_dl)], from [step] on. *)
Fixpoint epoch_loop (dl : Loader.DataLoader) (n_steps epoch : nat) (t0 : Q)
    (step : nat) (todo : list (list Z)) (st : State) : Result State :=
  match todo with
  | [] => Ok st
  | idxs :: todo' =>
      batch ← Loader.fetch tfms_load_image dl idxs;
      st' ← batch_body n_steps epoch t0 step batch st;
      epoch_loop dl n_steps epoch t0 (S step) todo' st'
  end.

(** One turn of the outer loop: read [t0], then a pass over the loader. *)
Definition epoch_body (dl : Loader.DataLoader) (n_steps epoch : nat) (st : State)
  : Result State :=
  let t0 := perf_counter (clock st) in
  let st0 := {| example_ct := example_ct st; step_ct := step_ct st;
                model := model st; clock := S (clock st);
                wandb_log := wandb_log st; history := history st |} in
  epoch_loop dl n_steps epoch t0 0 (Loader.batches dl) st0.

(** [for epoch in range(...)], from [epoch] on, [todo] epochs left. *)
Fixpoint epochs_loop (dl : Loader.DataLoader) (n_steps epoch todo : nat) (st : State)
  : Result State :=
  match todo with
  | 0 => Ok st
  | S todo' =>
      st' ← epoch_body dl n_steps epoch st;
      epochs_loop dl n_steps (S epoch) todo' st'
  end.

(** The counters before the first epoch: [example_ct = 0], [step_ct = 0]. *)
Definition init_state (model0 : Model) : State :=
  {| example_ct := 0; step_ct := 0; model := model0; clock := 0;
     wandb_log := []; history := [] |}.

(** [train], from the data loader on; [dataset_files] is what the glob
    finds in the downloaded dataset, [model0] the model built by
    [get_model]. *)
Definition train (config : Config) (dataset_files : list Pets.Path) (model0 : Model)
  : Result State :=
  train_dl ← get_dataloader dataset_files (batch_size config) (image_size config);
  n_steps ← n_steps_per_epoch (Pets.__len__ (Loader.dataset train_dl)) (batch_size config);
  epochs_loop train_dl n_steps 0 (epochs config) (init_state model0).

End Train.

(** ** Vocabulary of the statements about [train] *)

(** [ceil(n / b)] on naturals. *)
Definition ceil_div (n b : nat) : nat := n / b + (if n mod b =? 0 then 0 else 1).

(** [perf_counter] advances between any two readings. *)
Definition clock_increasing (perf_counter : nat -> Q) : Prop :=
  forall i j, i < j -> (perf_counter i < perf_counter j)%Q.

(** A file from which [__getitem__] builds a sample: the image loads and
    the label resolves. *)
Definition sample_ok {Tensor : Type} (tfms_load_image : nat -> Pets.Path -> Result Tensor)
    (image_size : nat) (file : Pets.Path) : Prop :=
  is_Ok (tfms_load_image image_size file) /\ is_Ok (Pets.label_of file).

(** The same, as a test that computes. *)
Definition is_Okb {A} (r : Result A) : bool :=
  match r with Ok _ => true | Raise _ => false end.

Definition sample_okb {Tensor : Type} (tfms_load_image : nat -> Pets.Path -> Result Tensor)
    (image_size : nat) (file : Pets.Path) : bool :=
  is_Okb (tfms_load_image image_size file) && is_Okb (Pets.label_of file).

Section Events.
Context {Loss : Type}.

(** The events of epoch [e] in a history, and the events at which
    [wandb.log] was called. *)
Definition epoch_events (e : nat) (h : list (@Event Loss)) : list Event :=
  filter (fun ev => ev_epoch ev = e) h.

Definition logged_events (h : list (@Event Loss)) : list Event :=
  filter (fun ev => ev_logged ev = true) h.

(** What the loop records at step [s] of epoch [e], with [n] steps per
    epoch, for a batch of [len] images that brings [example_ct] to [ex]. *)
Definition event_ok (n e s len ex : nat) (ev : @Event Loss) : Prop :=
  ev_epoch ev = e /\ ev_step ev = s /\ ev_len ev = len /\
  train_example_ct (ev_metrics ev) = ex /\
  train_epoch (ev_metrics ev) = (Qnat (s + 1 + n * e) / Qnat n)%Q /\
  samples_per_sec (ev_metrics ev) = (Qnat len / (ev_tf ev - ev_ti ev))%Q /\
  samples_per_sec_epoch (ev_metrics ev) = (Qnat ex / (ev_tf ev - ev_t0 ev))%Q /\
  ev_logged ev = (s + 1 <? n).

(** The events of one epoch, given the sizes [lens] of the loader's batches
    and the value [ex0] of [example_ct] when the epoch starts. *)
Definition epoch_ok (n e ex0 : nat) (lens : list nat) (evs : list (@Event Loss)) : Prop :=
  length evs = length lens /\
  forall j ev len, evs !! j = Some ev -> lens !! j = Some len ->
    event_ok n e j len (ex0 + sum_list (take (S j) lens)) ev.

(** From the count [a] on, each event adds its own non-empty batch to
    [example_ct]. *)
Fixpoint example_ct_chain (a : nat) (evs : list (@Event Loss)) : Prop :=
  match evs with
  | [] => True
  | ev :: evs' =>
      0 < ev_len ev /\
      train_example_ct (ev_metrics ev) = a + ev_len ev /\
      example_ct_chain (train_example_ct (ev_metrics ev)) evs'
  end.

End Events.

(** The claimed reading of [samples_per_sec_epoch]: the examples processed
    since the start of the event's own epoch, over the time elapsed since
    that epoch's [t0]. *)
Definition examples_since_epoch_start {Loss : Type} (h : list (@Event Loss))
    (ev : @Event Loss) : nat :=
  sum_list (map ev_len
    (filter (fun ev' => ev_epoch ev' = ev_epoch ev /\ ev_step ev' <= ev_step ev) h)).

Definition spec_samples_per_sec_epoch {Loss : Type} (h : list (@Event Loss))
    (ev : @Event Loss) : Q :=
  (Qnat (examples_since_epoch_start h ev) / (ev_tf ev - ev_t0 ev))%Q.

(** The label key as the claim words it, "the leading token consisting of
    letters and underscores only": the longest run of letters and
    underscores at the start of the name. *)
Fixpoint leading_run (p : ascii -> bool) (s : list ascii) : list ascii :=
  match s with
  | x :: s' => if p x then x :: leading_run p s' else []
  | [] => []
  end.

Definition spec_leading_token (fname : string) : string :=
  string_of_list_ascii
    (leading_run (fun x => Pets.is_letter x || Pets.is_underscore x)
                 (list_ascii_of_string fname)).

(** ** A small run, used to instantiate the statements

    Seven images in batches of two (four steps per epoch, the last batch
    of one image), two epochs; the clock reads 0, 1, 2, ... seconds; the
    stand-in model counts its optimizer steps and reports the labels of the
    batch as its loss. *)

Definition demo_files : list Pets.Path :=
  [["PETS"; "images"; "Abyssinian_1.jpg"]; ["PETS"; "images"; "pug_12.jpg"];
   ["PETS"; "images"; "american_pit_bull_terrier_3.jpg"];
   ["PETS"; "images"; "British_Shorthair_7.jpg"];
   ["PETS"; "images"; "beagle_44.jpg"]; ["PETS"; "images"; "Sphynx_9.jpg"];
   ["PETS"; "images"; "yorkshire_terrier_100.jpg"]]%string.

Definition demo_config : Config := mkConfig 2 2 128.

Definition demo_tfms : nat -> Pets.Path -> Result unit := fun _ _ => Ok tt.

Definition demo_fit : nat -> list unit -> list nat -> nat * list nat :=
  fun m _ labels => (S m, labels).

Definition demo_clock : nat -> Q := Qnat.

Definition demo_train : Result State :=
  train demo_tfms demo_fit demo_clock demo_config demo_files 0.

(** A hundred images in batches of 32, one epoch. *)
Definition demo_files100 : list Pets.Path :=
  map (fun i : nat =>
         ["PETS"; "images"; String.append "pug_" (String.append (pretty i) ".jpg")]%string)
      (seq 1 100).

Definition demo_config100 : Config := mkConfig 32 1 128.

(** ** The rest of the script *)

Section Main.
Context {Tensor Model Loss : Type}.
Variable tfms_load_image : nat -> Pets.Path -> Result Tensor.
Variable fit : Model -> list Tensor -> list nat -> Model * Loss.
Variable perf_counter : nat -> Q.

(** [for _ in range(args.num_experiments): train(config=args)]: every call
    starts from [get_model]'s fresh model and its own counters; the clock
    goes on, [offset] readings having been taken by the earlier calls.  An
    exception in one call ends the script. *)
Fixpoint experiments (num_experiments offset : nat) (config : Config)
    (dataset_files : list Pets.Path) (model0 : Model)
  : Result (list (@State Model Loss)) :=
  match num_experiments with
  | 0 => Ok []
  | S k =>
      st ← train tfms_load_image fit (fun j => perf_counter (offset + j))
                 config dataset_files model0;
      rest ← experiments k (offset + clock st) config dataset_files model0;
      Ok (st :: rest)
  end.

End Main.

(** What a logged record says about progress, timing apart. *)
Definition progress_of {Loss : Type} (m : @Metrics Loss) : Q * nat :=
  (train_epoch m, train_example_ct m).

(** The three clock readings of a batch are in order. *)
Definition times_ok {Loss : Type} (ev : @Event Loss) : Prop :=
  (ev_t0 ev < ev_ti ev)%Q /\ (ev_ti ev < ev_tf ev)%Q.

(** ** [parse_args], [check_cuda] *)

(** The namespace [parse_args] returns and [train] receives; [gpu_name] is
    [None] when the machine has no GPU name to report. *)
Record Namespace : Type := mkNamespace {
  ns_entity : string;
  ns_batch_size : nat;
  ns_epochs : nat;
  ns_num_experiments : nat;
  ns_learning_rate : Q;
  ns_image_size : nat;
  ns_model_name : string;
  ns_dataset : string;
  ns_device : string;
  ns_gpu_name : option string;
  ns_num_workers : nat;
  ns_mixed_precision : bool;
  ns_channels_last : bool;
  ns_optimizer : string;
  ns_compile : bool
}.

(** What [parse_args()] returns on an empty command line: the values of
    [config_defaults], [ENTITY] for the entity, and [False] for the
    [store_true] flags; [gpu_name] is what [get_gpu_name()] found. *)
Definition parse_args_defaults (gpu_name : option string) : Namespace :=
  {| ns_entity := "capecape";
     ns_batch_size := 64;
     ns_epochs := 1;
     ns_num_experiments := 1;
     ns_learning_rate := 1 # 1000;
     ns_image_size := 128;
     ns_model_name := "resnet50";
     ns_dataset := "PETS";
     ns_device := "mps";
     ns_gpu_name := gpu_name;
     ns_num_workers := 4;
     ns_mixed_precision := false;
     ns_channels_last := false;
     ns_optimizer := "Adam";
     ns_compile := false |}.

(** [check_cuda]; [cuda_is_available] is [torch.cuda.is_available()]. *)
Definition check_cuda (cuda_is_available : bool) (config : Namespace) : Namespace :=
  if cuda_is_available then
    {| ns_entity := ns_entity config;
       ns_batch_size := ns_batch_size config;
       ns_epochs := ns_epochs config;
       ns_num_experiments := ns_num_experiments config;
       ns_learning_rate := ns_learning_rate config;
       ns_image_size := ns_image_size config;
       ns_model_name := ns_model_name config;
       ns_dataset := ns_dataset config;
       ns_device := "cuda";
       ns_gpu_name := ns_gpu_name config;
       ns_num_workers := ns_num_workers config;
       ns_mixed_precision := true;
       ns_channels_last := ns_channels_last config;
       ns_optimizer := ns_optimizer config;
       ns_compile := ns_compile config |}
  else config.

(** The fields of the namespace the training loop reads. *)
Definition loop_config (config : Namespace) : Config :=
  mkConfig (ns_batch_size config) (ns_epochs config) (ns_image_size config).

(** * Properties *)

(** ** The matcher *)

Section ReFacts.
Import Re.

Lemma backtrack_Some lo k cont n :
  backtrack lo k cont = Some n ->
  exists j m, lo <= j <= k /\ cont j = Some m /\ n = j + m.
Proof.
  induction k as [|k IH]; simpl.
  - destruct lo; simpl; [|discriminate].
    destruct (cont 0) as [m|] eqn:E; [|discriminate].
    intros [= <-]. exists 0, m. repeat split; auto.
  - destruct (S k <? lo) eqn:Hlt; [discriminate|].
    apply Nat.ltb_ge in Hlt.
    destruct (cont (S k)) as [m|] eqn:E.
    + intros [= <-]. exists (S k), m. repeat split; auto.
    + intros H. destruct (IH H) as (j & m & Hj & Hc & ->).
      exists j, m. repeat split; auto; lia.
Qed.

Lemma backtrack_None lo k cont :
  backtrack lo k cont = None -> forall j, lo <= j <= k -> cont j = None.
Proof.
  induction k as [|k IH]; simpl.
  - intros H j Hj. assert (j = 0) as -> by lia. assert (lo = 0) as -> by lia.
    simpl in H. destruct (cont 0); [discriminate|reflexivity].
  - intros H j Hj. destruct (S k <? lo) eqn:Hlt.
    + apply Nat.ltb_lt in Hlt. lia.
    + destruct (cont (S k)) eqn:E; [discriminate|].
      destruct (decide (j = S k)) as [->|Hne]; [assumption|].
      apply IH; [assumption|lia].
Qed.

Lemma run_le p s : run p s <= length s.
Proof. induction s as [|x s IH]; simpl; [lia|]. destruct (p x); simpl; lia. Qed.

Lemma run_take p s k :
  k <= run p s -> Forall (fun x => p x = true) (take k s).
Proof.
  revert k. induction s as [|x s IH]; intros k Hk; simpl in *.
  - rewrite take_nil. constructor.
  - destruct k as [|k]; [constructor|]. destruct (p x) eqn:E; [|lia].
    simpl. constructor; [assumption|]. apply IH. lia.
Qed.

Lemma run_app_ge p w s :
  Forall (fun x => p x = true) w -> length w <= run p (w ++ s).
Proof.
  induction 1 as [|x w Hx _ IH]; simpl; [lia|]. rewrite Hx. lia.
Qed.

Lemma match_here_sound r s n :
  match_here r s = Some n -> n <= length s /\ in_lang r (take n s).
Proof.
  revert s n. induction r as [|[c q] r IH]; intros s n; simpl.
  - intros [= <-]. split; [lia|]. by rewrite take_0.
  - intros H. apply backtrack_Some in H as (j & m & Hj & Hc & ->).
    apply IH in Hc as [Hm Hl]. rewrite length_drop in Hm.
    pose proof (run_le (accepts c) s).
    split; [lia|]. exists (take j s), (take m (drop j s)). repeat split.
    + rewrite take_take_drop. reflexivity.
    + apply run_take. lia.
    + rewrite length_take. lia.
    + assumption.
Qed.

Lemma match_here_complete r w s :
  in_lang r w -> is_Some (match_here r (w ++ s)).
Proof.
  revert w s. induction r as [|[c q] r IH]; intros w s; simpl.
  - eauto.
  - intros (w1 & w2 & -> & Hw1 & Hlen & Hw2).
    destruct (backtrack _ _ _) eqn:E; [eauto|].
    exfalso. pose proof (backtrack_None _ _ _ E (length w1)) as Hn.
    rewrite <- (assoc_L (++)) in Hn.
    specialize (Hn (conj Hlen (run_app_ge _ _ _ Hw1))). simpl in Hn.
    rewrite drop_app_length in Hn.
    destruct (IH w2 s Hw2) as [x Hx]. congruence.
Qed.

End ReFacts.

(** ** The vocabulary dict *)

Section VocabFacts.
Import Pets.

Lemma foldl_insert_notin (l : list string) i (m : gmap string nat) v :
  v ∉ l ->
  foldl (fun m iv => <[iv.2 := iv.1]> m) m (enumerate_from i l) !! v = m !! v.
Proof.
  revert i m. induction l as [|x l IH]; intros i m Hv; simpl; [reflexivity|].
  apply not_elem_of_cons in Hv as [Hne Hv].
  rewrite IH by assumption. by rewrite lookup_insert_ne.
Qed.

Lemma foldl_insert_lookup (l : list string) i (m : gmap string nat) j v :
  NoDup l -> l !! j = Some v ->
  foldl (fun m iv => <[iv.2 := iv.1]> m) m (enumerate_from i l) !! v = Some (i + j).
Proof.
  revert i m j. induction l as [|x l IH]; intros i m j Hnd Hj; [done|].
  apply NoDup_cons in Hnd as [Hx Hnd]. destruct j as [|j]; simpl in *.
  - injection Hj as ->. rewrite foldl_insert_notin by assumption.
    rewrite lookup_insert_eq. f_equal. lia.
  - rewrite (IH (S i) _ j) by assumption. f_equal. lia.
Qed.

Lemma foldl_insert_inv (l : list string) i (m : gmap string nat) v k :
  foldl (fun m iv => <[iv.2 := iv.1]> m) m (enumerate_from i l) !! v = Some k ->
  m !! v = Some k \/ exists j, k = i + j /\ l !! j = Some v.
Proof.
  revert i m. induction l as [|x l IH]; intros i m; simpl; [auto|].
  intros H. apply IH in H as [H|(j & -> & Hj)].
  - destruct (decide (x = v)) as [->|Hne].
    + rewrite lookup_insert_eq in H. injection H as <-.
      right. exists 0. split; [lia|reflexivity].
    + rewrite lookup_insert_ne in H by assumption. auto.
  - right. exists (S j). split; [lia|assumption].
Qed.

Lemma dict_of_enumerate_lookup (l : list string) v k :
  NoDup l -> dict_of_enumerate l !! v = Some k <-> l !! k = Some v.
Proof.
  intros Hnd. unfold dict_of_enumerate. split.
  - intros H. apply foldl_insert_inv in H as [H|(j & -> & Hj)]; [done|assumption].
  - intros H. by rewrite (foldl_insert_lookup l 0 ∅ k v).
Qed.

Lemma vocab_NoDup : NoDup vocab.
Proof. apply (bool_decide_unpack _). by vm_compute. Qed.

Lemma vocab_map_lookup v k : vocab_map !! v = Some k <-> vocab !! k = Some v.
Proof. apply dict_of_enumerate_lookup, vocab_NoDup. Qed.

End VocabFacts.

(** ** Label extraction and [__getitem__] *)

Section LabelFacts.
Import Re Pets.

Lemma letter_not_digit x : is_letter x = true -> is_digit x = false.
Proof. destruct x as [[] [] [] [] [] [] [] []]; vm_compute; congruence. Qed.

Lemma underscore_not_digit x : is_underscore x = true -> is_digit x = false.
Proof. destruct x as [[] [] [] [] [] [] [] []]; vm_compute; congruence. Qed.

Lemma string_of_list_ascii_app a b :
  string_of_list_ascii (a ++ b)
  = String.append (string_of_list_ascii a) (string_of_list_ascii b).
Proof. induction a as [|x a IH]; simpl; [reflexivity|]. by rewrite IH. Qed.

(** The words of [pat]: letters, then underscores, then letters. *)
Lemma in_lang_pat w :
  in_lang pat w ->
  exists l1 u l2,
    w = l1 ++ u ++ l2 /\
    Forall (fun x => is_letter x = true) l1 /\ 1 <= length l1 /\
    Forall (fun x => is_underscore x = true) u /\
    Forall (fun x => is_letter x = true) l2 /\ 1 <= length l2.
Proof.
  simpl. intros (l1 & w2 & -> & H1 & Hn1 & u & w4 & -> & Hu & _ & l2 & w6 & -> & H2 & Hn2 & ->).
  exists l1, u, l2. rewrite app_nil_r. repeat split; assumption.
Qed.

Lemma in_lang_pat_chars w :
  in_lang pat w ->
  w <> [] /\
  Forall (fun x => is_letter x || is_underscore x = true) w /\
  Forall (fun x => is_digit x = false) w.
Proof.
  intros (l1 & u & l2 & -> & H1 & Hn1 & Hu & H2 & Hn2)%in_lang_pat.
  split; [destruct l1; simpl in *; [lia|discriminate]|].
  split; rewrite !Forall_app; repeat split;
    (eapply Forall_impl; [eassumption|]); simpl; intros x Hx;
    auto using letter_not_digit, underscore_not_digit.
  - by rewrite Hx.
  - rewrite Hx. apply orb_true_r.
  - by rewrite Hx.
Qed.

Lemma re_match_Some r s tok :
  re_match r s = Some tok ->
  in_lang r (list_ascii_of_string tok) /\
  exists rest, s = String.append tok rest.
Proof.
  unfold re_match. destruct (match_here r _) as [n|] eqn:E; [|discriminate].
  intros [= <-]. apply match_here_sound in E as [Hn Hl].
  rewrite list_ascii_of_string_of_list_ascii. split; [assumption|].
  exists (string_of_list_ascii (drop n (list_ascii_of_string s))).
  rewrite <- string_of_list_ascii_app, take_drop.
  by rewrite string_of_list_ascii_of_string.
Qed.

Lemma re_match_is_Some r s :
  is_Some (re_match r s) <->
  exists w rest, list_ascii_of_string s = w ++ rest /\ in_lang r w.
Proof.
  split.
  - intros [tok H]. unfold re_match in H.
    destruct (match_here r _) as [n|] eqn:E; [|discriminate].
    apply match_here_sound in E as [Hn Hl].
    exists (take n (list_ascii_of_string s)), (drop n (list_ascii_of_string s)).
    by rewrite take_drop.
  - intros (w & rest & Hs & Hw). unfold re_match. rewrite Hs.
    destruct (match_here_complete r w rest Hw) as [n ->]. eauto.
Qed.

Lemma label_of_no_match file :
  re_match pat (name file) = None -> label_of file = Raise TypeError.
Proof. unfold label_of. by intros ->. Qed.

Lemma label_of_match file tok :
  re_match pat (name file) = Some tok ->
  label_of file = dict_getitem vocab_map tok.
Proof. unfold label_of. by intros ->. Qed.

Lemma mem_vocab_map tok : tok ∈ vocab <-> is_Some (vocab_map !! tok).
Proof.
  rewrite list_elem_of_lookup. unfold is_Some.
  split; intros [k Hk]; exists k; by apply vocab_map_lookup.
Qed.

Lemma label_of_not_in_vocab file tok :
  re_match pat (name file) = Some tok -> tok ∉ vocab ->
  label_of file = Raise (KeyError tok).
Proof.
  intros Hm Hv. rewrite (label_of_match _ _ Hm). unfold dict_getitem.
  destruct (vocab_map !! tok) as [k|] eqn:E; [|reflexivity].
  exfalso. apply Hv, mem_vocab_map. eauto.
Qed.

Context {Tensor : Type} (tfms_load_image : nat -> Path -> Result Tensor).

Lemma getitem_label_raise (ds : Pets.t) idx file e :
  list_getitem (files ds) idx = Ok file ->
  label_of file = Raise e ->
  ~ is_Ok (__getitem__ tfms_load_image ds idx) /\
  (forall img, tfms_load_image (Pets.image_size ds) file = Ok img ->
               __getitem__ tfms_load_image ds idx = Raise e).
Proof.
  intros Hf Hl. unfold __getitem__. rewrite Hf. simpl.
  destruct (tfms_load_image _ file) as [img|e'] eqn:E; simpl; rewrite ?Hl; simpl.
  - split; [intros [a Ha]; discriminate|]. by intros ? [= <-].
  - split; [intros [a Ha]; discriminate|]. intros ? [=].
Qed.

Lemma list_getitem_nat {A} (l : list A) i x :
  l !! i = Some x -> list_getitem l (Z.of_nat i) = Ok x.
Proof.
  intros H. unfold list_getitem.
  destruct (Z.ltb_spec (Z.of_nat i) 0) as [?|_]; [lia|].
  destruct (Z.ltb_spec (Z.of_nat i) 0) as [?|_]; [lia|].
  by rewrite Nat2Z.id, H.
Qed.

Lemma mapM_Result_raise {A B} (f : A -> Result B) l x :
  x ∈ l -> ~ is_Ok (f x) -> ~ is_Ok (mapM f l).
Proof.
  induction 1 as [x l|x y l Hin IH]; intros Hx [bs Hbs]; simpl in Hbs.
  - destruct (f x) as [b|e] eqn:E; [|discriminate]. apply Hx. by exists b.
  - destruct (f y) as [b|e]; [|discriminate]. simpl in Hbs.
    destruct (mapM f l) as [bs'|e] eqn:E; [|discriminate].
    apply IH; [assumption|by exists bs'].
Qed.

End LabelFacts.

(** ** The loader and the number of steps *)

Section LoaderFacts.
Import Loader.

Lemma BatchSampler_concat {A} b (acc l : list A) :
  concat (BatchSampler b acc l) = acc ++ l.
Proof.
  revert acc. induction l as [|x l IH]; intros acc; simpl.
  - destruct acc; simpl; by rewrite ?app_nil_r.
  - destruct (_ =? b); simpl; rewrite IH; by rewrite <- ?(assoc_L (++)).
Qed.

(** The sizes of the batches over [n] indices: full batches, then the
    remainder if there is one. *)
Lemma BatchSampler_lengths {A} b (acc l : list A) :
  length acc < b ->
  map length (BatchSampler b acc l)
  = replicate ((length acc + length l) / b) b
    ++ (if (length acc + length l) mod b =? 0 then []
        else [(length acc + length l) mod b]).
Proof.
  revert acc. induction l as [|x l IH]; intros acc Hacc; simpl.
  - rewrite Nat.add_0_r, Nat.div_small, Nat.mod_small by assumption.
    destruct acc; simpl; reflexivity.
  - rewrite length_app. simpl.
    destruct (Nat.eqb_spec (length acc + 1) b) as [Hb|Hb].
    + simpl. rewrite IH by (simpl; lia). simpl.
      replace (length acc + S (length l)) with (length l + 1 * b) by lia.
      rewrite Nat.div_add, Nat.Div0.mod_add by lia.
      rewrite Nat.add_1_r, length_app. simpl. by rewrite Hb.
    + rewrite IH by (rewrite length_app; simpl; lia).
      rewrite length_app. simpl.
      by replace (length acc + 1 + length l) with (length acc + S (length l)) by lia.
Qed.

Lemma batches_concat dl :
  concat (batches dl) = SequentialSampler (Pets.__len__ (dataset dl)).
Proof. apply BatchSampler_concat. Qed.

Lemma batches_lengths dl :
  0 < batch_size dl ->
  map length (batches dl)
  = replicate (Pets.__len__ (dataset dl) / batch_size dl) (batch_size dl)
    ++ (if Pets.__len__ (dataset dl) mod batch_size dl =? 0 then []
        else [Pets.__len__ (dataset dl) mod batch_size dl]).
Proof.
  intros Hb. unfold batches. rewrite BatchSampler_lengths by (simpl; lia).
  unfold SequentialSampler. simpl. by rewrite length_map, length_seq.
Qed.

End LoaderFacts.

Section CeilFacts.

Lemma Qceiling_nat_div n b :
  0 < b -> Qceiling (Qnat n / Qnat b) = Z.of_nat (ceil_div n b).
Proof.
  intros Hb. unfold ceil_div.
  pose proof (Nat.div_mod_eq n b) as Hdm.
  pose proof (Nat.mod_upper_bound n b) as Hr.
  set (q := n / b) in *. set (r := n mod b) in *. clearbody q r.
  assert (r < b) as Hr' by (apply Hr; lia). clear Hr.
  destruct b as [|b]; [lia|].
  unfold Qnat, Qceiling, Qfloor, Qdiv, Qmult, Qinv, Qopp. simpl Qnum. simpl Qden.
  rewrite Z.mul_1_r, Pos.mul_1_l.
  pose proof (Zpos_P_of_succ_nat b) as Hp.
  set (d := Z.pos (Pos.of_succ_nat b)) in *. clearbody d.
  destruct (Nat.eqb_spec r 0) as [H0|H0].
  - rewrite <- (Z.div_unique_pos (- Z.of_nat n) d (- Z.of_nat q) 0); nia.
  - rewrite <- (Z.div_unique_pos (- Z.of_nat n) d (- Z.of_nat (q + 1)) (Z.of_nat (S b - r))); nia.
Qed.

Lemma n_steps_per_epoch_ceil n b :
  0 < b -> n_steps_per_epoch n b = Ok (ceil_div n b).
Proof.
  intros Hb. unfold n_steps_per_epoch, truediv.
  replace (Qeq_bool (Qnat b) 0) with false.
  - simpl. rewrite Qceiling_nat_div by assumption. by rewrite Nat2Z.id.
  - destruct b; [lia|reflexivity].
Qed.
End CeilFacts.

(** ** The training loop *)

Section TrainFacts.
Context {Tensor Model Loss : Type}.
Variable tfms_load_image : nat -> Pets.Path -> Result Tensor.
Variable fit : Model -> list Tensor -> list nat -> Model * Loss.
Variable perf_counter : nat -> Q.
Hypothesis Hclock : clock_increasing perf_counter.

Variable dl : Loader.DataLoader.
Hypothesis Hfiles :
  Forall (sample_ok tfms_load_image (Pets.image_size (Loader.dataset dl)))
         (Pets.files (Loader.dataset dl)).

Abbreviation State := (@State Model Loss).
Abbreviation batch_body := (batch_body fit perf_counter).
Abbreviation epoch_loop := (epoch_loop tfms_load_image fit perf_counter).
Abbreviation epoch_body := (epoch_body tfms_load_image fit perf_counter).
Abbreviation epochs_loop := (epochs_loop tfms_load_image fit perf_counter).

Lemma truediv_Ok a b : ~ (b == 0)%Q -> truediv a b = Ok (a / b)%Q.
Proof.
  intros Hb. unfold truediv. destruct (Qeq_bool b 0) eqn:E; [|reflexivity].
  apply Qeq_bool_iff in E. contradiction.
Qed.

Lemma Qnat_nonzero n : 0 < n -> ~ (Qnat n == 0)%Q.
Proof. unfold Qnat, Qeq. simpl. lia. Qed.

Lemma clock_diff_nonzero i j : i < j -> ~ (perf_counter j - perf_counter i == 0)%Q.
Proof.
  intros Hij H. apply Hclock in Hij.
  assert (perf_counter j == perf_counter i)%Q as Heq.
  { rewrite <- (Qplus_0_l (perf_counter i)), <- H. ring. }
  rewrite Heq in Hij. by apply Qlt_irrefl in Hij.
Qed.

Lemma getitem_ok (i : nat) :
  i < Pets.__len__ (Loader.dataset dl) ->
  is_Ok (Pets.__getitem__ tfms_load_image (Loader.dataset dl) (Z.of_nat i)).
Proof.
  intros Hi. destruct (lookup_lt_is_Some_2 _ _ Hi) as [file Hf].
  pose proof (proj1 (Forall_lookup _ _) Hfiles i file Hf) as [[img Himg] [k Hk]].
  exists (img, k). unfold Pets.__getitem__.
  rewrite (list_getitem_nat _ _ _ Hf). simpl. rewrite Himg. simpl. by rewrite Hk.
Qed.

Lemma fetch_ok idxs :
  Forall (fun idx => idx ∈ Loader.SequentialSampler (Pets.__len__ (Loader.dataset dl))) idxs ->
  exists batch, Loader.fetch tfms_load_image dl idxs = Ok batch /\
                length batch = length idxs.
Proof.
  unfold Loader.fetch. induction 1 as [|idx idxs Hidx _ (batch & Hb & Hlen)]; simpl.
  - by exists [].
  - apply list_elem_of_fmap in Hidx as (i & -> & Hi).
    apply elem_of_seq in Hi. destruct (getitem_ok i) as [x Hx]; [lia|].
    rewrite Hx. simpl. rewrite Hb. simpl. exists (x :: batch). simpl. by rewrite Hlen.
Qed.

Lemma elem_of_concat {A} (x : A) b bs : x ∈ b -> b ∈ bs -> x ∈ concat bs.
Proof.
  intros Hx. induction 1 as [b bs|b b' bs _ IH]; simpl; apply elem_of_app; auto.
Qed.

Lemma batches_in_range :
  Forall (Forall (fun idx => idx ∈ Loader.SequentialSampler (Pets.__len__ (Loader.dataset dl))))
         (Loader.batches dl).
Proof.
  apply Forall_forall. intros b Hb. apply Forall_forall. intros idx Hidx.
  rewrite <- batches_concat. by apply (elem_of_concat _ b).
Qed.

(** One batch. *)
Lemma batch_body_spec n e k0 s batch (st : State) :
  0 < n -> k0 < clock st ->
  exists st' ev,
    batch_body n e (perf_counter k0) s batch st = Ok st' /\
    example_ct st' = example_ct st + length batch /\
    step_ct st' = step_ct st + 1 /\
    clock st' = clock st + 2 /\
    history st' = history st ++ [ev] /\
    wandb_log st' = wandb_log st ++ map ev_metrics (logged_events [ev]) /\
    event_ok n e s (length batch) (example_ct st + length batch) ev.
Proof.
  intros Hn Hk. unfold batch_body.
  destruct (fit (model st) batch.*1 batch.*2) as [model' loss].
  rewrite length_fmap.
  rewrite (truediv_Ok _ (Qnat n)) by by apply Qnat_nonzero. simpl.
  rewrite (truediv_Ok _ (_ - _)%Q) by (apply clock_diff_nonzero; lia). simpl.
  rewrite (truediv_Ok _ (_ - _)%Q) by (apply clock_diff_nonzero; lia). simpl.
  eexists _, _. split; [reflexivity|]. simpl.
  repeat split; try lia.
  unfold logged_events. destruct (s + 1 <? n) eqn:E.
  - by rewrite filter_cons_True by done.
  - rewrite filter_cons_False by (simpl; congruence). simpl. by rewrite app_nil_r.
Qed.

(** A pass over the batches [todo], from step [s] on. *)
Lemma epoch_loop_spec n e k0 todo : forall s (st : State),
  (todo <> [] -> 0 < n) -> k0 < clock st ->
  Forall (Forall (fun idx => idx ∈ Loader.SequentialSampler (Pets.__len__ (Loader.dataset dl)))) todo ->
  exists st' evs,
    epoch_loop dl n e (perf_counter k0) s todo st = Ok st' /\
    example_ct st' = example_ct st + sum_list (map length todo) /\
    step_ct st' = step_ct st + length todo /\
    clock st' = clock st + 2 * length todo /\
    history st' = history st ++ evs /\
    wandb_log st' = wandb_log st ++ map ev_metrics (logged_events evs) /\
    length evs = length todo /\
    forall j ev len, evs !! j = Some ev -> map length todo !! j = Some len ->
      event_ok n e (s + j) len
        (example_ct st + sum_list (take (S j) (map length todo))) ev.
Proof.
  induction todo as [|idxs todo IH]; intros s st Hn Hk Hrange; simpl.
  - exists st, []. rewrite !app_nil_r. split_and!; try done; try lia.
  - apply Forall_cons in Hrange as [Hidxs Hrange].
    destruct (fetch_ok idxs Hidxs) as (batch & -> & Hlen). simpl.
    destruct (batch_body_spec n e k0 s batch st (Hn ltac:(done)) Hk)
      as (st1 & ev & -> & Hex & Hst & Hcl & Hh & Hw & Hev). simpl.
    destruct (IH (S s) st1 ltac:(intros _; by apply Hn) ltac:(lia) Hrange)
      as (st2 & evs & -> & Hex2 & Hst2 & Hcl2 & Hh2 & Hw2 & Hlen2 & Hevs).
    exists st2, (ev :: evs). split; [reflexivity|].
    rewrite Hlen in *. split_and!; try (simpl; lia).
    + rewrite Hh2, Hh, <- (assoc_L (++)). reflexivity.
    + rewrite Hw2, Hw, <- (assoc_L (++)), <- fmap_app. f_equal. f_equal.
      unfold logged_events. by rewrite <- filter_app.
    + intros [|j] ev' len' Hj Hl; simpl in Hj, Hl.
      * injection Hj as <-. injection Hl as <-.
        rewrite Nat.add_0_r. simpl. rewrite Nat.add_0_r. exact Hev.
      * specialize (Hevs j ev' len' Hj Hl). rewrite Hex in Hevs.
        replace (s + S j) with (S s + j) by lia.
        replace (sum_list (take (S (S j)) (map length (idxs :: todo))))
          with (length idxs + sum_list (take (S j) (map length todo)))
          by reflexivity.
        by rewrite Nat.add_assoc.
Qed.


Let N := Pets.__len__ (Loader.dataset dl).
Let b := Loader.batch_size dl.
Let n := ceil_div N b.
Let lens := map length (Loader.batches dl).
Hypothesis Hb : 0 < b.

Lemma sum_list_replicate k x : sum_list (replicate k x) = k * x.
Proof. induction k as [|k IH]; simpl; lia. Qed.

Lemma length_concat_sum {A} (bs : list (list A)) :
  length (concat bs) = sum_list (map length bs).
Proof. induction bs as [|x bs IH]; simpl; [reflexivity|]. rewrite length_app. lia. Qed.

Lemma lens_closed :
  lens = replicate (N / b) b ++ (if N mod b =? 0 then [] else [N mod b]).
Proof. by apply batches_lengths. Qed.

Lemma lens_length : length lens = n.
Proof.
  rewrite lens_closed, length_app, length_replicate. unfold n, ceil_div.
  by destruct (N mod b =? 0).
Qed.

Lemma lens_sum : sum_list lens = N.
Proof.
  unfold lens. rewrite <- length_concat_sum, batches_concat.
  unfold Loader.SequentialSampler. by rewrite length_map, length_seq.
Qed.

Lemma lens_positive : Forall (fun len => 0 < len <= b) lens.
Proof.
  rewrite lens_closed. apply Forall_app. split.
  - apply Forall_replicate. lia.
  - destruct (Nat.eqb_spec (N mod b) 0); constructor; [|constructor].
    pose proof (Nat.mod_upper_bound N b). lia.
Qed.

(** One epoch. *)
Lemma epoch_body_spec e (st : State) :
  exists st' evs,
    epoch_body dl n e st = Ok st' /\
    example_ct st' = example_ct st + N /\
    step_ct st' = step_ct st + n /\
    history st' = history st ++ evs /\
    wandb_log st' = wandb_log st ++ map ev_metrics (logged_events evs) /\
    epoch_ok n e (example_ct st) lens evs.
Proof.
  unfold epoch_body.
  pose proof lens_length as Hl. pose proof lens_sum as Hs.
  unfold lens in Hl, Hs. rewrite length_map in Hl.
  edestruct (epoch_loop_spec n e (clock st) (Loader.batches dl) 0)
    as (st' & evs & Hrun & Hex & Hst & _ & Hh & Hw & Hlen & Hevs);
    [| |apply batches_in_range|].
  3: { exists st', evs. split; [exact Hrun|]. simpl in *.
       split_and!; try assumption; try lia.
       unfold epoch_ok, lens. by rewrite length_map. }
  - intros Hne. destruct (Loader.batches dl); [done|]. simpl in Hl. lia.
  - simpl. lia.
Qed.

(** [todo] epochs, from epoch [e] on. *)
Lemma epochs_loop_spec todo : forall e (st : State),
  exists st' evss,
    epochs_loop dl n e todo st = Ok st' /\
    example_ct st' = example_ct st + todo * N /\
    step_ct st' = step_ct st + todo * n /\
    history st' = history st ++ concat evss /\
    wandb_log st' = wandb_log st ++ map ev_metrics (logged_events (concat evss)) /\
    length evss = todo /\
    forall i evs, evss !! i = Some evs ->
                  epoch_ok n (e + i) (example_ct st + i * N) lens evs.
Proof.
  induction todo as [|todo IH]; intros e st; simpl.
  - exists st, []. simpl. rewrite !app_nil_r. split_and!; try done; lia.
  - destruct (epoch_body_spec e st) as (st1 & evs & -> & Hex & Hst & Hh & Hw & Hok).
    simpl. destruct (IH (S e) st1) as (st2 & evss & -> & Hex2 & Hst2 & Hh2 & Hw2 & Hlen & Hoks).
    exists st2, (evs :: evss). split; [reflexivity|]. simpl.
    split_and!; try lia.
    + by rewrite Hh2, Hh, <- (assoc_L (++)).
    + rewrite Hw2, Hw, <- (assoc_L (++)), <- fmap_app. do 2 f_equal.
      unfold logged_events. by rewrite filter_app.
    + intros [|i] evs' Hi; simpl in Hi.
      * injection Hi as <-. by rewrite !Nat.add_0_r.
      * specialize (Hoks i evs' Hi). rewrite Hex in Hoks.
        replace (e + S i) with (S e + i) by lia.
        by replace (example_ct st + S i * N) with (example_ct st + N + i * N) by lia.
Qed.

End TrainFacts.

Section TrainSpec.
Context {Tensor Model Loss : Type}.
Variable tfms_load_image : nat -> Pets.Path -> Result Tensor.
Variable fit : Model -> list Tensor -> list nat -> Model * Loss.
Variable perf_counter : nat -> Q.
Variable config : Config.
Variable dataset_files : list Pets.Path.
Hypothesis Hclock : clock_increasing perf_counter.
Hypothesis Hb : 0 < batch_size config.
Hypothesis Hfiles : Forall (sample_ok tfms_load_image (image_size config)) dataset_files.

Let N := length dataset_files.
Let n := ceil_div N (batch_size config).
Let dl := Loader.Build (Pets.Build dataset_files (image_size config)) (batch_size config).
Let lens := map length (Loader.batches dl).

Lemma train_spec model0 :
  exists st evss,
    train tfms_load_image fit perf_counter config dataset_files model0 = Ok st /\
    example_ct st = epochs config * N /\
    step_ct st = epochs config * n /\
    history st = concat evss /\
    wandb_log st = map ev_metrics (logged_events (history st)) /\
    length evss = epochs config /\
    forall e evs, evss !! e = Some evs -> epoch_ok n e (e * N) lens evs.
Proof.
  unfold train, get_dataloader.
  destruct (Nat.eqb_spec (batch_size config) 0) as [?|_]; [lia|]. simpl.
  rewrite n_steps_per_epoch_ceil by assumption. simpl.
  destruct (epochs_loop_spec tfms_load_image fit perf_counter Hclock dl Hfiles Hb
              (epochs config) 0 (init_state model0))
    as (st & evss & Hrun & Hex & Hst & Hh & Hw & Hlen & Hoks).
  exists st, evss. split; [exact Hrun|]. simpl in *.
  split_and!; try assumption.
  by rewrite Hh.
Qed.

End TrainSpec.


(** ** Reading the history *)

Section EventFacts.
Context {Loss : Type}.
Implicit Types (ev : @Event Loss) (evs h : list (@Event Loss)) (evss : list (list (@Event Loss))).

Lemma filter_all {A} (P : A -> Prop) `{forall x, Decision (P x)} (l : list A) :
  Forall P l -> filter P l = l.
Proof.
  induction 1 as [|x l Hx _ IH]; [reflexivity|].
  by rewrite filter_cons_True, IH.
Qed.

Lemma filter_none {A} (P : A -> Prop) `{forall x, Decision (P x)} (l : list A) :
  Forall (fun x => ~ P x) l -> filter P l = [].
Proof.
  induction 1 as [|x l Hx _ IH]; [reflexivity|].
  by rewrite filter_cons_False.
Qed.

(** Keeping the elements whose position is below [k]. *)
Lemma filter_take {A} (P : A -> Prop) `{forall x, Decision (P x)} (l : list A) : forall k,
  (forall j x, l !! j = Some x -> P x <-> j < k) -> filter P l = take k l.
Proof.
  induction l as [|x l IH]; intros k Hk; [by rewrite take_nil|].
  destruct k as [|k].
  - rewrite filter_none; [reflexivity|]. apply Forall_lookup.
    intros j y Hj HP. apply (Hk j y Hj) in HP. lia.
  - rewrite filter_cons_True by (apply (Hk 0 x); [reflexivity|lia]).
    simpl. f_equal. apply IH. intros j y Hj.
    rewrite (Hk (S j) y Hj). lia.
Qed.

Lemma epoch_ok_epoch n e ex0 lens evs :
  epoch_ok n e ex0 lens evs -> Forall (fun ev => ev_epoch ev = e) evs.
Proof.
  intros [Hlen Hev]. apply Forall_lookup. intros j ev Hj.
  destruct (lookup_lt_is_Some_2 lens j) as [len Hl].
  { rewrite <- Hlen. by apply lookup_lt_Some in Hj. }
  by destruct (Hev j ev len Hj Hl).
Qed.

Lemma epoch_ok_event n e ex0 lens evs j ev :
  epoch_ok n e ex0 lens evs -> evs !! j = Some ev ->
  exists len, lens !! j = Some len /\
              event_ok n e j len (ex0 + sum_list (take (S j) lens)) ev.
Proof.
  intros [Hlen Hev] Hj.
  destruct (lookup_lt_is_Some_2 lens j) as [len Hl].
  { rewrite <- Hlen. by apply lookup_lt_Some in Hj. }
  exists len. split; [assumption|]. by apply Hev.
Qed.

(** The events of epoch [e] are the [e]-th group of the history. *)
Lemma epoch_events_concat evss : forall base e,
  (forall i evs, evss !! i = Some evs -> Forall (fun ev => ev_epoch ev = base + i) evs) ->
  epoch_events (base + e) (concat evss) = default [] (evss !! e).
Proof.
  unfold epoch_events.
  induction evss as [|evs0 evss IH]; intros base e Hall; [reflexivity|].
  simpl. rewrite filter_app. destruct e as [|e]; simpl.
  - rewrite Nat.add_0_r, filter_all.
    2: { specialize (Hall 0 evs0 eq_refl). by rewrite Nat.add_0_r in Hall. }
    rewrite filter_none; [by rewrite app_nil_r|].
    apply Forall_forall. intros ev Hev.
    assert (exists i evs, evss !! i = Some evs /\ ev ∈ evs) as (i & evs & Hi & Hin).
    { clear -Hev. induction evss as [|x evss IH]; simpl in Hev; [by apply elem_of_nil in Hev|].
      apply elem_of_app in Hev as [Hev|Hev].
      - by exists 0, x.
      - destruct (IH Hev) as (i & evs & Hi & Hin). by exists (S i), evs. }
    pose proof (proj1 (Forall_forall _ _) (Hall (S i) evs Hi) ev Hin) as Hep.
    simpl in Hep. lia.
  - rewrite filter_none.
    2: { eapply Forall_impl; [apply (Hall 0 evs0 eq_refl)|]. simpl. lia. }
    simpl. replace (base + S e) with (S base + e) by lia. apply IH.
    intros i evs Hi. replace (S base + i) with (base + S i) by lia.
    by apply (Hall (S i)).
Qed.

Lemma epoch_ok_steps n e ex0 lens evs :
  epoch_ok n e ex0 lens evs -> map ev_step evs = seq 0 (length lens).
Proof.
  intros Hok. apply list_eq. intros j. rewrite list_lookup_fmap.
  destruct (evs !! j) as [ev|] eqn:Hj; simpl.
  - destruct (epoch_ok_event _ _ _ _ _ _ _ Hok Hj) as (len & Hl & _ & Hs & _).
    rewrite Hs. symmetry. apply lookup_seq. split; [reflexivity|].
    by apply lookup_lt_Some in Hl.
  - symmetry. apply lookup_ge_None. rewrite length_seq.
    destruct Hok as [<- _]. by apply lookup_ge_None.
Qed.

Lemma epoch_ok_lens n e ex0 lens evs :
  epoch_ok n e ex0 lens evs -> map ev_len evs = lens.
Proof.
  intros Hok. apply list_eq. intros j. rewrite list_lookup_fmap.
  destruct (evs !! j) as [ev|] eqn:Hj; simpl.
  - destruct (epoch_ok_event _ _ _ _ _ _ _ Hok Hj) as (len & Hl & _ & _ & Hs & _).
    by rewrite Hs.
  - symmetry. apply lookup_ge_None. destruct Hok as [<- _]. by apply lookup_ge_None.
Qed.

Lemma epoch_ok_logged n e ex0 lens evs :
  length lens = n -> epoch_ok n e ex0 lens evs ->
  logged_events evs = take (n - 1) evs.
Proof.
  intros Hn Hok. unfold logged_events. apply filter_take. intros j ev Hj.
  destruct (epoch_ok_event _ _ _ _ _ _ _ Hok Hj) as (len & Hl & Hev).
  destruct Hev as (_ & _ & _ & _ & _ & _ & _ & ->).
  rewrite Nat.ltb_lt. lia.
Qed.

End EventFacts.


(** ** [example_ct] along the history *)

Section ChainFacts.
Context {Loss : Type}.
Implicit Types (ev : @Event Loss) (evs h : list (@Event Loss)).

Lemma example_ct_chain_app a evs1 evs2 :
  example_ct_chain a evs1 ->
  example_ct_chain (a + sum_list (map ev_len evs1)) evs2 ->
  example_ct_chain a (evs1 ++ evs2).
Proof.
  revert a. induction evs1 as [|ev evs1 IH]; intros a; simpl.
  - by rewrite Nat.add_0_r.
  - intros (Hpos & Hct & Hrest) H2. split_and!; try assumption.
    apply IH; [assumption|]. by rewrite Hct, <- Nat.add_assoc.
Qed.

Lemma example_ct_chain_above a evs i ev :
  example_ct_chain a evs -> evs !! i = Some ev ->
  a < train_example_ct (ev_metrics ev).
Proof.
  revert a i. induction evs as [|ev0 evs IH]; intros a i; [done|].
  simpl. intros (Hpos & Hct & Hrest). destruct i as [|i]; simpl.
  - intros [= <-]. lia.
  - intros Hi. specialize (IH _ _ Hrest Hi). lia.
Qed.

Lemma example_ct_chain_lt a evs i j ev1 ev2 :
  example_ct_chain a evs -> i < j ->
  evs !! i = Some ev1 -> evs !! j = Some ev2 ->
  train_example_ct (ev_metrics ev1) < train_example_ct (ev_metrics ev2).
Proof.
  revert a i j. induction evs as [|ev0 evs IH]; intros a i j; [done|].
  simpl. intros (Hpos & Hct & Hrest) Hij. destruct j as [|j]; [lia|].
  destruct i as [|i]; simpl.
  - intros [= <-] Hj. by apply (example_ct_chain_above _ evs j).
  - apply (IH _ _ _ Hrest). lia.
Qed.

Lemma example_ct_chain_step a evs i ev1 ev2 :
  example_ct_chain a evs ->
  evs !! i = Some ev1 -> evs !! S i = Some ev2 ->
  train_example_ct (ev_metrics ev2) = train_example_ct (ev_metrics ev1) + ev_len ev2.
Proof.
  revert a i. induction evs as [|ev0 evs IH]; intros a i; [done|].
  simpl. intros (Hpos & Hct & Hrest). destruct i as [|i]; simpl.
  - intros [= <-] H2. destruct evs as [|ev' evs]; [done|].
    injection H2 as <-. simpl in Hrest. by destruct Hrest as (_ & ? & _).
  - apply (IH _ _ Hrest).
Qed.

Lemma example_ct_chain_first a evs ev :
  example_ct_chain a evs -> evs !! 0 = Some ev ->
  train_example_ct (ev_metrics ev) = a + ev_len ev /\ 0 < ev_len ev.
Proof. destruct evs as [|ev0 evs]; [done|]. simpl. intros (? & ? & _) [= <-]. done. Qed.

(** The events of one epoch form a chain. *)
Lemma events_chain evs : forall lens a,
  length evs = length lens ->
  Forall (fun len => 0 < len) lens ->
  (forall j ev len, evs !! j = Some ev -> lens !! j = Some len ->
     ev_len ev = len /\
     train_example_ct (ev_metrics ev) = a + sum_list (take (S j) lens)) ->
  example_ct_chain a evs.
Proof.
  induction evs as [|ev evs IH]; intros lens a Hlen Hpos Hev; [done|].
  destruct lens as [|len lens]; [done|]. simpl in Hlen.
  apply Forall_cons in Hpos as [Hp Hpos].
  destruct (Hev 0 ev len eq_refl eq_refl) as [Hl Hct]. simpl in Hct.
  simpl. split_and!; [lia|lia|].
  apply (IH lens); [lia|assumption|].
  intros j ev' len' Hj Hl'. destruct (Hev (S j) ev' len' Hj Hl') as [? Hct'].
  split; [assumption|]. rewrite Hct', Hct. simpl. lia.
Qed.

Lemma epoch_ok_chain n e ex0 lens evs :
  Forall (fun len => 0 < len) lens ->
  epoch_ok n e ex0 lens evs -> example_ct_chain ex0 evs.
Proof.
  intros Hpos [Hlen Hev]. apply (events_chain evs lens); try assumption.
  intros j ev len Hj Hl. by destruct (Hev j ev len Hj Hl) as (_ & _ & ? & ? & _).
Qed.

Lemma epochs_chain n N lens (evss : list (list (@Event Loss))) : forall base ex0,
  Forall (fun len => 0 < len) lens -> sum_list lens = N ->
  (forall i evs, evss !! i = Some evs -> epoch_ok n (base + i) (ex0 + i * N) lens evs) ->
  example_ct_chain ex0 (concat evss).
Proof.
  induction evss as [|evs evss IH]; intros base ex0 Hpos Hsum Hok; [done|].
  simpl. pose proof (Hok 0 evs eq_refl) as Hok0.
  rewrite Nat.add_0_r in Hok0. simpl in Hok0. rewrite Nat.add_0_r in Hok0.
  apply example_ct_chain_app; [by apply (epoch_ok_chain n base ex0 lens)|].
  rewrite (epoch_ok_lens _ _ _ _ _ Hok0), Hsum.
  apply (IH (S base)); try assumption.
  intros i evs' Hi. specialize (Hok (S i) evs' Hi).
  replace (S base + i) with (base + S i) by lia.
  by replace (ex0 + N + i * N) with (ex0 + S i * N) by lia.
Qed.

Lemma logged_events_concat_length k (evss : list (list (@Event Loss))) :
  Forall (fun evs => length (logged_events evs) = k) evss ->
  length (logged_events (concat evss)) = length evss * k.
Proof.
  induction 1 as [|evs evss Hk _ IH]; [reflexivity|].
  simpl. unfold logged_events in *. rewrite filter_app, length_app. lia.
Qed.

End ChainFacts.


(** ** Whole runs *)

Section TrainRun.
Context {Tensor Model Loss : Type}.
Variable tfms_load_image : nat -> Pets.Path -> Result Tensor.
Variable fit : Model -> list Tensor -> list nat -> Model * Loss.
Variable perf_counter : nat -> Q.
Variable config : Config.
Variable dataset_files : list Pets.Path.
Hypothesis Hclock : clock_increasing perf_counter.
Hypothesis Hb : 0 < batch_size config.
Hypothesis Hfiles : Forall (sample_ok tfms_load_image (image_size config)) dataset_files.

Let N := length dataset_files.
Let n := ceil_div N (batch_size config).
Let dl := Loader.Build (Pets.Build dataset_files (image_size config)) (batch_size config).
Let lens := map length (Loader.batches dl).

(** A run under these hypotheses completes; its history is the sequence
    of its epochs, each as [epoch_ok] describes. *)
Lemma train_run model0 :
  exists st,
    train tfms_load_image fit perf_counter config dataset_files model0 = Ok st /\
    example_ct st = epochs config * N /\
    step_ct st = epochs config * n /\
    wandb_log st = map ev_metrics (logged_events (history st)) /\
    history st = concat (map (fun e => epoch_events e (history st)) (seq 0 (epochs config))) /\
    (forall e, e < epochs config ->
               epoch_ok n e (e * N) lens (epoch_events e (history st))) /\
    example_ct_chain 0 (history st).
Proof.
  destruct (train_spec tfms_load_image fit perf_counter config dataset_files
              Hclock Hb Hfiles model0)
    as (st & evss & Hrun & Hex & Hst & Hh & Hw & Hlen & Hoks).
  fold N n dl lens in Hex, Hst, Hoks.
  assert (forall e, epoch_events e (history st) = default [] (evss !! e)) as Hep.
  { intros e. rewrite Hh. apply (epoch_events_concat evss 0 e).
    intros i evs Hi. by apply (epoch_ok_epoch n _ (i * N) lens), Hoks. }
  assert (evss = map (fun e => epoch_events e (history st)) (seq 0 (epochs config))) as Hevss.
  { apply list_eq. intros e. rewrite list_lookup_fmap.
    destruct (decide (e < epochs config)) as [He|He].
    - rewrite lookup_seq_lt by assumption. simpl. rewrite Hep.
      destruct (lookup_lt_is_Some_2 evss e) as [evs ->]; [lia|]. reflexivity.
    - rewrite lookup_seq_ge by lia. simpl. apply lookup_ge_None. lia. }
  exists st. split; [exact Hrun|]. split_and!; try assumption.
  - by rewrite <- Hevss.
  - intros e He. rewrite Hep.
    destruct (lookup_lt_is_Some_2 evss e) as [evs Hevs]; [lia|].
    rewrite Hevs. simpl. by apply Hoks.
  - rewrite Hh. apply (epochs_chain n N lens evss 0 0).
    + apply Forall_forall. intros len Hin.
      pose proof (proj1 (Forall_forall _ _) (lens_positive dl Hb) len Hin) as Hpos.
      simpl in Hpos. lia.
    + by apply (lens_sum dl).
    + exact Hoks.
Qed.

(** Every event of the history is the event of its epoch and step. *)
Lemma train_events (h : list (@Event Loss)) :
  h = concat (map (fun e => epoch_events e h) (seq 0 (epochs config))) ->
  (forall e, e < epochs config -> epoch_ok n e (e * N) lens (epoch_events e h)) ->
  forall ev, ev ∈ h ->
    ev_epoch ev < epochs config /\ ev_step ev < n /\
    exists len, lens !! ev_step ev = Some len /\
      event_ok n (ev_epoch ev) (ev_step ev) len
               (ev_epoch ev * N + sum_list (take (S (ev_step ev)) lens)) ev.
Proof.
  intros Hh Hoks ev Hev.
  assert (exists e, e < epochs config /\ ev ∈ epoch_events e h) as (e & He & Hin).
  { rewrite Hh in Hev. revert Hev. generalize (epochs config). clear.
    intros k. induction k as [|k IH]; [by intros ?%elem_of_nil|].
    rewrite seq_S, map_app, concat_app. simpl. rewrite app_nil_r.
    intros [Hin|Hin]%elem_of_app.
    - destruct (IH Hin) as (e & He & Hin'). exists e. split; [lia|assumption].
    - exists k. split; [lia|assumption]. }
  apply list_elem_of_lookup in Hin as [j Hj].
  destruct (epoch_ok_event _ _ _ _ _ _ _ (Hoks e He) Hj) as (len & Hl & Hok).
  pose proof Hok as (He' & Hs' & _).
  rewrite He', Hs'. split_and!; [assumption| |by exists len].
  apply lookup_lt_Some in Hl. unfold lens in Hl. rewrite length_map in Hl.
  pose proof (lens_length dl Hb) as Hn. rewrite length_map in Hn.
  change (length (Loader.batches dl) = n) in Hn. lia.
Qed.

End TrainRun.


(** ** Claims about the training loop *)

Section RunFacts.
Context {Loss : Type}.

Lemma length_concat_const {A} k (ls : list (list A)) :
  Forall (fun l => length l = k) ls -> length (concat ls) = length ls * k.
Proof.
  induction 1 as [|l ls Hl _ IH]; [reflexivity|].
  simpl. rewrite length_app. lia.
Qed.

Lemma epoch_ok_length n e ex0 lens (evs : list (@Event Loss)) :
  epoch_ok n e ex0 lens evs -> length evs = length lens.
Proof. by intros [? _]. Qed.

Lemma Qnat_lt a b : a < b -> (Qnat a < Qnat b)%Q.
Proof. intros H. unfold Qnat. rewrite <- Zlt_Qlt. lia. Qed.

Lemma Qnat_mult a b : (Qnat a * Qnat b == Qnat (a * b))%Q.
Proof. unfold Qnat. rewrite Nat2Z.inj_mul, inject_Z_mult. reflexivity. Qed.

(** [e < (s + 1 + n * e) / n < e + 1] when [s + 1 < n]. *)
Lemma frac_between n e s :
  s + 1 < n ->
  (Qnat e < Qnat (s + 1 + n * e) / Qnat n < Qnat (e + 1))%Q.
Proof.
  intros Hs. assert (0 < Qnat n)%Q as Hn by (apply (Qnat_lt 0 n); lia). split.
  - apply Qlt_shift_div_l; [assumption|]. rewrite Qnat_mult. apply Qnat_lt. nia.
  - apply Qlt_shift_div_r; [assumption|]. rewrite Qnat_mult. apply Qnat_lt. nia.
Qed.

End RunFacts.

Section LoopSplit.
Context {Tensor Model Loss : Type}.
Variable tfms_load_image : nat -> Pets.Path -> Result Tensor.
Variable fit : Model -> list Tensor -> list nat -> Model * Loss.
Variable perf_counter : nat -> Q.

(** Running [a + b] epochs is running [a] epochs, then [b] more. *)
Lemma epochs_loop_split dl n a b : forall e (st : @State Model Loss),
  epochs_loop tfms_load_image fit perf_counter dl n e (a + b) st
  = st' ← epochs_loop tfms_load_image fit perf_counter dl n e a st;
    epochs_loop tfms_load_image fit perf_counter dl n (e + a) b st'.
Proof.
  induction a as [|a IH]; intros e st; simpl.
  - by rewrite Nat.add_0_r.
  - destruct (epoch_body _ _ _ dl n e st) as [st1|err]; simpl; [|reflexivity].
    rewrite IH. by replace (S e + a) with (e + S a) by lia.
Qed.

End LoopSplit.

Section TrainClaims.
Context {Tensor Model Loss : Type}.
Variable tfms_load_image : nat -> Pets.Path -> Result Tensor.
Variable fit : Model -> list Tensor -> list nat -> Model * Loss.
Variable perf_counter : nat -> Q.
Variable config : Config.
Variable dataset_files : list Pets.Path.
Hypothesis Hclock : clock_increasing perf_counter.
Hypothesis Hb : 0 < batch_size config.
Hypothesis Hfiles : Forall (sample_ok tfms_load_image (image_size config)) dataset_files.

Let N := length dataset_files.
Let n := ceil_div N (batch_size config).
Let dl := Loader.Build (Pets.Build dataset_files (image_size config)) (batch_size config).
Let lens := map length (Loader.batches dl).

Local Lemma lens_n : length lens = n.
Proof. apply (lens_length dl Hb). Qed.

Local Lemma train_unfold (model0 : Model) :
  train tfms_load_image fit perf_counter config dataset_files model0
  = epochs_loop tfms_load_image fit perf_counter dl n 0 (epochs config)
                (init_state model0).
Proof.
  unfold train, get_dataloader.
  destruct (Nat.eqb_spec (batch_size config) 0) as [?|_]; [lia|]. simpl.
  change (Pets.__len__ (Pets.Build dataset_files (image_size config))) with N.
  by rewrite (n_steps_per_epoch_ceil N (batch_size config) Hb).
Qed.

(** C1: in every epoch the loop processes steps [0 .. n-1], with
    [n = ceil(len / batch_size)] the value of [n_steps_per_epoch], and calls
    [wandb.log] at exactly the steps [0 .. n-2]: an event is logged iff
    [step + 1 < n], so the record of the final batch is not emitted.  The
    run emits [epochs * (n - 1)] records, 6 for 2 epochs of 4 steps. *)
Theorem C1_metrics_emission (model0 : Model) :
  exists st,
    train tfms_load_image fit perf_counter config dataset_files model0 = Ok st /\
    n_steps_per_epoch N (batch_size config) = Ok n /\
    wandb_log st = map ev_metrics (logged_events (history st)) /\
    (forall e, e < epochs config ->
       map ev_step (epoch_events e (history st)) = seq 0 n /\
       map ev_step (logged_events (epoch_events e (history st))) = seq 0 (n - 1)) /\
    (forall ev, ev ∈ history st -> ev_logged ev = true <-> ev_step ev + 1 < n) /\
    length (wandb_log st) = epochs config * (n - 1) /\
    (epochs config = 2 -> n = 4 -> length (wandb_log st) = 6).
Proof.
  destruct (train_run tfms_load_image fit perf_counter config dataset_files
              Hclock Hb Hfiles model0)
    as (st & Hrun & Hex & Hst & Hw & Hh & Hoks & Hchain).
  fold N n dl lens in Hex, Hst, Hoks.
  assert (length (wandb_log st) = epochs config * (n - 1)) as Hcount.
  { rewrite Hw, length_map, Hh.
    rewrite (logged_events_concat_length (n - 1)).
    - by rewrite length_map, length_seq.
    - apply Forall_fmap, Forall_forall. intros e [_ He]%elem_of_seq. simpl.
      rewrite (epoch_ok_logged n e _ lens _ lens_n (Hoks e He)), length_take.
      rewrite (epoch_ok_length _ _ _ _ _ (Hoks e He)), lens_n. lia. }
  exists st. split; [exact Hrun|]. split_and!; try assumption.
  - by apply n_steps_per_epoch_ceil.
  - intros e He. split.
    + rewrite (epoch_ok_steps _ _ _ _ _ (Hoks e He)). by rewrite lens_n.
    + rewrite (epoch_ok_logged n e _ lens _ lens_n (Hoks e He)), <- List.firstn_map.
      rewrite (epoch_ok_steps _ _ _ _ _ (Hoks e He)), lens_n, take_seq.
      f_equal. lia.
  - intros ev Hev.
    destruct (train_events config dataset_files Hb _ Hh Hoks ev Hev)
      as (_ & _ & len & _ & Hok).
    destruct Hok as (_ & _ & _ & _ & _ & _ & _ & ->). apply Nat.ltb_lt.
  - intros He Hn. rewrite Hcount, He, Hn. reflexivity.
Qed.


(** C6: [n_steps_per_epoch] is [ceil(len / batch_size)], computed once:
    the whole run is the epoch loop for that one value.  One pass over the
    loader takes the indices [0 .. len-1] once each, in [n] batches, all of
    [batch_size] indices except a shorter last one when [batch_size] does
    not divide [len]; every epoch of a run is one such pass.  For 100 files
    in batches of 32 there are 4 steps and the last batch has 4 samples. *)
Theorem C6_steps_per_epoch_and_batches (model0 : Model) :
  n_steps_per_epoch N (batch_size config) = Ok n /\
  train tfms_load_image fit perf_counter config dataset_files model0
  = epochs_loop tfms_load_image fit perf_counter dl n 0 (epochs config)
                (init_state model0) /\
  concat (Loader.batches dl) = Loader.SequentialSampler N /\
  length (Loader.batches dl) = n /\
  map length (Loader.batches dl)
  = replicate (N / batch_size config) (batch_size config)
    ++ (if N mod batch_size config =? 0 then [] else [N mod batch_size config]) /\
  (exists st,
     train tfms_load_image fit perf_counter config dataset_files model0 = Ok st /\
     forall e, e < epochs config ->
       map ev_len (epoch_events e (history st)) = map length (Loader.batches dl)) /\
  (N = 100 -> batch_size config = 32 ->
   n = 4 /\ map length (Loader.batches dl) = [32; 32; 32; 4]).
Proof.
  pose proof (n_steps_per_epoch_ceil N (batch_size config) Hb) as Hn.
  pose proof (batches_lengths dl Hb) as Hlens.
  change (map length (Loader.batches dl)
          = replicate (N / batch_size config) (batch_size config)
            ++ (if N mod batch_size config =? 0 then []
                else [N mod batch_size config])) in Hlens.
  split_and!.
  - exact Hn.
  - apply train_unfold.
  - apply batches_concat.
  - rewrite <- (length_map length). apply lens_n.
  - exact Hlens.
  - destruct (train_run tfms_load_image fit perf_counter config dataset_files
                Hclock Hb Hfiles model0)
      as (st & Hrun & _ & _ & _ & _ & Hoks & _).
    exists st. split; [exact Hrun|]. intros e He.
    apply (epoch_ok_lens _ _ _ _ _ (Hoks e He)).
  - intros HN Hb32. unfold n. rewrite Hlens, HN, Hb32. split; reflexivity.
Qed.

(** C7: [example_ct] grows at every batch by the size of that batch, which
    is positive, so it is strictly increasing along the whole run; the
    batch sizes of an epoch are those of one pass over the loader and sum
    to the dataset size; after the final batch of epoch [e] (counted from 0)
    [example_ct] is [(e + 1) * len], and at the end of the run
    [epochs * len], whether or not [batch_size] divides [len]. *)
Theorem C7_example_ct (model0 : Model) :
  exists st,
    train tfms_load_image fit perf_counter config dataset_files model0 = Ok st /\
    (forall ev, history st !! 0 = Some ev ->
       train_example_ct (ev_metrics ev) = ev_len ev /\ 0 < ev_len ev) /\
    (forall i ev1 ev2,
       history st !! i = Some ev1 -> history st !! S i = Some ev2 ->
       train_example_ct (ev_metrics ev2)
       = train_example_ct (ev_metrics ev1) + ev_len ev2) /\
    (forall i j ev1 ev2, i < j ->
       history st !! i = Some ev1 -> history st !! j = Some ev2 ->
       train_example_ct (ev_metrics ev1) < train_example_ct (ev_metrics ev2)) /\
    (forall e, e < epochs config ->
       map ev_len (epoch_events e (history st)) = map length (Loader.batches dl) /\
       sum_list (map ev_len (epoch_events e (history st))) = N) /\
    (forall ev, ev ∈ history st -> ev_step ev + 1 = n ->
       train_example_ct (ev_metrics ev) = (ev_epoch ev + 1) * N) /\
    (forall e, e <= epochs config ->
       exists st_e,
         epochs_loop tfms_load_image fit perf_counter dl n 0 e (init_state model0)
         = Ok st_e /\
         example_ct st_e = e * N /\
         epochs_loop tfms_load_image fit perf_counter dl n e (epochs config - e) st_e
         = Ok st) /\
    example_ct st = epochs config * N.
Proof.
  destruct (train_run tfms_load_image fit perf_counter config dataset_files
              Hclock Hb Hfiles model0)
    as (st & Hrun & Hex & Hst & Hw & Hh & Hoks & Hchain).
  fold N n dl lens in Hex, Hst, Hoks.
  exists st. split; [exact Hrun|]. split_and!.
  - intros ev H0. by apply (example_ct_chain_first 0 (history st)).
  - intros i ev1 ev2. by apply example_ct_chain_step with (a := 0).
  - intros i j ev1 ev2. by apply example_ct_chain_lt with (a := 0).
  - intros e He. pose proof (epoch_ok_lens _ _ _ _ _ (Hoks e He)) as Hl.
    split; [exact Hl|]. rewrite Hl. apply (lens_sum dl Hb).
  - intros ev Hev Hlast.
    destruct (train_events config dataset_files Hb _ Hh Hoks ev Hev)
      as (_ & _ & len & _ & Hok).
    destruct Hok as (_ & _ & _ & Hx & _).
    change (train_example_ct (ev_metrics ev)
            = ev_epoch ev * N + sum_list (take (S (ev_step ev)) lens)) in Hx.
    rewrite Hx, take_ge by (rewrite lens_n; lia).
    pose proof (lens_sum dl Hb) as Hsum.
    change (sum_list lens = N) in Hsum. lia.
  - intros e He.
    destruct (epochs_loop_spec tfms_load_image fit perf_counter Hclock dl Hfiles Hb
                e 0 (init_state model0))
      as (st_e & evss & Hrun_e & Hex_e & _).
    change (epochs_loop tfms_load_image fit perf_counter dl n 0 e (init_state model0)
            = Ok st_e) in Hrun_e.
    exists st_e. split; [exact Hrun_e|]. split; [exact Hex_e|].
    rewrite train_unfold in Hrun.
    replace (epochs config) with (e + (epochs config - e)) in Hrun at 1 by lia.
    rewrite epochs_loop_split, Hrun_e in Hrun. exact Hrun.
  - exact Hex.
Qed.



(** C8: the dict built at step [s] of epoch [e] carries
    [train/epoch = (s + 1 + n * e) / n], for every epoch and step of the
    run; with 4 steps per epoch the value at epoch 0, step 3 is 1, and the
    binary64 quotient Python computes there is exactly 1.0. *)
Theorem C8_fractional_epoch (model0 : Model) :
  exists st,
    train tfms_load_image fit perf_counter config dataset_files model0 = Ok st /\
    (forall ev, ev ∈ history st ->
       train_epoch (ev_metrics ev)
       = (Qnat (ev_step ev + 1 + n * ev_epoch ev) / Qnat n)%Q) /\
    (forall e s, e < epochs config -> s < n ->
       exists ev, ev ∈ history st /\ ev_epoch ev = e /\ ev_step ev = s) /\
    (n = 4 -> forall ev, ev ∈ history st -> ev_epoch ev = 0 -> ev_step ev = 3 ->
       (train_epoch (ev_metrics ev) == 1)%Q) /\
    binary64_truediv (Z.of_nat (3 + 1 + 4 * 0)) 4 = SFone 53 1024.
Proof.
  destruct (train_run tfms_load_image fit perf_counter config dataset_files
              Hclock Hb Hfiles model0)
    as (st & Hrun & Hex & Hst & Hw & Hh & Hoks & Hchain).
  fold N n dl lens in Hex, Hst, Hoks.
  assert (forall ev, ev ∈ history st ->
            train_epoch (ev_metrics ev)
            = (Qnat (ev_step ev + 1 + n * ev_epoch ev) / Qnat n)%Q) as Hfrac.
  { intros ev Hev.
    destruct (train_events config dataset_files Hb _ Hh Hoks ev Hev)
      as (_ & _ & len & _ & Hok).
    by destruct Hok as (_ & _ & _ & _ & ? & _). }
  exists st. split; [exact Hrun|]. split_and!.
  - exact Hfrac.
  - intros e s He Hs. pose proof (Hoks e He) as Hok.
    destruct (lookup_lt_is_Some_2 (epoch_events e (history st)) s) as [ev Hev].
    { rewrite (epoch_ok_length _ _ _ _ _ Hok), lens_n. exact Hs. }
    destruct (epoch_ok_event _ _ _ _ _ _ _ Hok Hev) as (len & _ & Hep & Hstep & _).
    exists ev. split_and!; try assumption.
    assert (ev ∈ epoch_events e (history st)) as Hin
      by (apply list_elem_of_lookup; eauto).
    unfold epoch_events in Hin. by apply list_elem_of_filter in Hin as [_ ?].
  - intros Hn ev Hev He Hs. rewrite (Hfrac ev Hev), Hn, He, Hs. reflexivity.
  - reflexivity.
Qed.

(** C9: a record that reaches [wandb.log] in epoch [e] was built at a step
    with [step + 1 < n], so its [train/epoch] lies strictly between [e] and
    [e + 1]: below the epoch boundary, and never a whole number. *)
Theorem C9_logged_epoch_below_boundary (model0 : Model) :
  exists st,
    train tfms_load_image fit perf_counter config dataset_files model0 = Ok st /\
    wandb_log st = map ev_metrics (logged_events (history st)) /\
    (forall ev, ev ∈ logged_events (history st) ->
       train_epoch (ev_metrics ev)
       = (Qnat (ev_step ev + 1 + n * ev_epoch ev) / Qnat n)%Q /\
       (Qnat (ev_epoch ev) < train_epoch (ev_metrics ev) < Qnat (ev_epoch ev + 1))%Q) /\
    (forall m, m ∈ wandb_log st ->
       forall z : Z, ~ (train_epoch m == inject_Z z)%Q).
Proof.
  destruct (train_run tfms_load_image fit perf_counter config dataset_files
              Hclock Hb Hfiles model0)
    as (st & Hrun & Hex & Hst & Hw & Hh & Hoks & Hchain).
  fold N n dl lens in Hex, Hst, Hoks.
  assert (forall ev, ev ∈ logged_events (history st) ->
    train_epoch (ev_metrics ev)
    = (Qnat (ev_step ev + 1 + n * ev_epoch ev) / Qnat n)%Q /\
    (Qnat (ev_epoch ev) < train_epoch (ev_metrics ev) < Qnat (ev_epoch ev + 1))%Q)
    as Hlogged.
  { intros ev Hev. unfold logged_events in Hev.
    apply list_elem_of_filter in Hev as [Hl Hev].
    destruct (train_events config dataset_files Hb _ Hh Hoks ev Hev)
      as (_ & _ & len & _ & Hok).
    destruct Hok as (_ & _ & _ & _ & Hfrac & _ & _ & Hlog).
    rewrite Hl in Hlog. symmetry in Hlog. apply Nat.ltb_lt in Hlog.
    split; [exact Hfrac|]. rewrite Hfrac. by apply frac_between. }
  exists st. split; [exact Hrun|]. split_and!; try assumption.
  intros m Hm z Hz. rewrite Hw in Hm.
  apply list_elem_of_fmap in Hm as (ev & -> & Hev).
  destruct (Hlogged ev Hev) as (_ & Hlo & Hhi).
  rewrite Hz in Hlo, Hhi. unfold Qnat in Hlo, Hhi.
  rewrite <- Zlt_Qlt in Hlo, Hhi. lia.
Qed.

(** C10: [step_ct] is 0 before the first epoch; the loop body adds exactly
    one to it whenever it completes, whether or not it logged the batch; a
    run ends with [step_ct = epochs * ceil(len / batch_size)], one per batch
    processed. *)
Theorem C10_step_ct (model0 : Model) :
  step_ct (init_state (Loss := Loss) model0) = 0 /\
  (forall n_steps e t0 s batch (st st' : @State Model Loss),
     batch_body fit perf_counter n_steps e t0 s batch st = Ok st' ->
     step_ct st' = step_ct st + 1) /\
  exists st,
    train tfms_load_image fit perf_counter config dataset_files model0 = Ok st /\
    step_ct st = epochs config * ceil_div N (batch_size config) /\
    step_ct st = length (history st).
Proof.
  split; [reflexivity|]. split.
  - intros n_steps e t0 s batch st st'. unfold batch_body.
    destruct (fit (model st) batch.*1 batch.*2) as [model' loss].
    unfold truediv.
    destruct (Qeq_bool (Qnat n_steps) _); simpl; [intros; discriminate|].
    destruct (Qeq_bool (perf_counter (S (clock st)) - perf_counter (clock st)) _);
      simpl; [intros; discriminate|].
    destruct (Qeq_bool (perf_counter (S (clock st)) - t0) _);
      simpl; [intros; discriminate|].
    by intros [= <-].
  - destruct (train_run tfms_load_image fit perf_counter config dataset_files
                Hclock Hb Hfiles model0)
      as (st & Hrun & Hex & Hst & Hw & Hh & Hoks & Hchain).
    fold N n dl lens in Hex, Hst, Hoks.
    exists st. split; [exact Hrun|]. split; [exact Hst|].
    rewrite Hst, Hh, (length_concat_const n).
    + by rewrite length_map, length_seq.
    + apply Forall_fmap, Forall_forall. intros e [_ He]%elem_of_seq. simpl.
      by rewrite (epoch_ok_length _ _ _ _ _ (Hoks e He)), lens_n.
Qed.

End TrainClaims.

(** ** Claims about the labels *)

Section LabelClaims.
Import Re Pets.

(** C3: the vocabulary has 37 distinct names and [vocab_map] sends each of
    them to its position, a bijection onto [0, 37); for an index [i] in
    range whose file name matches [pat] with a token of the vocabulary,
    [__getitem__] returns (with the image) the position of that token in
    [vocab]. *)
Theorem C3_getitem_class_index :
  (length vocab = 37 /\
   (forall v, v ∈ vocab -> exists k, k < 37 /\ vocab_map !! v = Some k) /\
   (forall k, k < 37 -> exists! v, vocab_map !! v = Some k) /\
   (forall v k, vocab_map !! v = Some k -> vocab !! k = Some v)) /\
  forall (Tensor : Type) (tfms : nat -> Path -> Result Tensor)
         (ds : Pets.t) (i : nat) file tok img,
    i < __len__ ds ->
    files ds !! i = Some file ->
    re_match pat (name file) = Some tok ->
    tok ∈ vocab ->
    tfms (Pets.image_size ds) file = Ok img ->
    exists k, __getitem__ tfms ds (Z.of_nat i) = Ok (img, k) /\
              vocab !! k = Some tok /\ k < 37.
Proof.
  assert (length vocab = 37) as Hlen by reflexivity.
  split; [split; [assumption|split; [|split]]|].
  - intros v [k Hk]%list_elem_of_lookup. exists k. split.
    + apply lookup_lt_Some in Hk. lia.
    + by apply vocab_map_lookup.
  - intros k Hk. destruct (lookup_lt_is_Some_2 vocab k) as [v Hv]; [lia|].
    exists v. split; [by apply vocab_map_lookup|].
    intros v' Hv'%vocab_map_lookup. congruence.
  - intros v k. apply vocab_map_lookup.
  - intros Tensor tfms ds i file tok img _ Hf Hm Hv Himg.
    apply mem_vocab_map in Hv as [k Hk]. exists k.
    pose proof (proj1 (vocab_map_lookup _ _) Hk) as Hpos.
    split; [|split; [assumption|apply lookup_lt_Some in Hpos; lia]].
    unfold __getitem__. rewrite (list_getitem_nat _ _ _ Hf). simpl.
    rewrite Himg. simpl. rewrite (label_of_match _ _ Hm).
    unfold dict_getitem. by rewrite Hk.
Qed.

Lemma C3_getitem_class_index_witness :
  exists k,
    __getitem__ (fun _ _ => Ok tt)
      (Pets.Build [["PETS"; "images"; "pug_12.jpg"]; ["PETS"; "images"; "Bengal_3.jpg"]]%string 128)
      (Z.of_nat 1) = Ok (tt, k) /\
    vocab !! k = Some "Bengal"%string /\ k < 37.
Proof.
  apply (proj2 C3_getitem_class_index unit (fun _ _ => Ok tt)
           (Pets.Build [["PETS"; "images"; "pug_12.jpg"]; ["PETS"; "images"; "Bengal_3.jpg"]]%string 128)
           1 ["PETS"; "images"; "Bengal_3.jpg"]%string "Bengal"%string tt).
  - vm_compute. lia.
  - reflexivity.
  - reflexivity.
  - apply (bool_decide_unpack _). by vm_compute.
  - reflexivity.
Defined.

(** C4: on a file whose extracted token is not in the vocabulary the label
    lookup raises [KeyError] (the spec's LabelNotFoundError), on a file
    whose name has no match subscripting the [None] match raises
    [TypeError] (the spec's PatternMismatchError).  In both cases
    [__getitem__] returns no sample, raises exactly that error once the
    image has loaded, and a loader batch that contains the index fails as a
    whole: the sample is not skipped. *)
Theorem C4_getitem_errors (Tensor : Type) (tfms : nat -> Path -> Result Tensor)
    (ds : Pets.t) (idx : Z) (file : Path) :
  list_getitem (files ds) idx = Ok file ->
  (forall tok, re_match pat (name file) = Some tok -> tok ∉ vocab ->
     label_of file = Raise (KeyError tok) /\
     ~ is_Ok (__getitem__ tfms ds idx) /\
     (forall img, tfms (Pets.image_size ds) file = Ok img ->
                  __getitem__ tfms ds idx = Raise (KeyError tok)) /\
     (forall b idxs, idx ∈ idxs ->
                     ~ is_Ok (Loader.fetch tfms (Loader.Build ds b) idxs))) /\
  (re_match pat (name file) = None ->
     label_of file = Raise TypeError /\
     ~ is_Ok (__getitem__ tfms ds idx) /\
     (forall img, tfms (Pets.image_size ds) file = Ok img ->
                  __getitem__ tfms ds idx = Raise TypeError) /\
     (forall b idxs, idx ∈ idxs ->
                     ~ is_Ok (Loader.fetch tfms (Loader.Build ds b) idxs))).
Proof.
  intros Hf. split.
  - intros tok Hm Hv. pose proof (label_of_not_in_vocab _ _ Hm Hv) as Hl.
    destruct (getitem_label_raise tfms ds idx file _ Hf Hl) as [Hno Hex].
    repeat split; try assumption.
    intros b idxs Hin. by apply (mapM_Result_raise _ _ idx).
  - intros Hm. pose proof (label_of_no_match _ Hm) as Hl.
    destruct (getitem_label_raise tfms ds idx file _ Hf Hl) as [Hno Hex].
    repeat split; try assumption.
    intros b idxs Hin. by apply (mapM_Result_raise _ _ idx).
Qed.

Lemma C4_getitem_errors_witness :
  __getitem__ (fun _ _ => Ok tt)
    (Pets.Build [["PETS"; "images"; "tabby_cat_1.jpg"]; ["PETS"; "images"; "7.jpg"]]%string 128) 0
  = Raise (KeyError "tabby_cat") /\
  __getitem__ (fun _ _ => Ok tt)
    (Pets.Build [["PETS"; "images"; "tabby_cat_1.jpg"]; ["PETS"; "images"; "7.jpg"]]%string 128) 1
  = Raise TypeError.
Proof.
  split.
  - destruct (C4_getitem_errors unit (fun _ _ => Ok tt)
             (Pets.Build [["PETS"; "images"; "tabby_cat_1.jpg"]; ["PETS"; "images"; "7.jpg"]]%string 128)
             0%Z ["PETS"; "images"; "tabby_cat_1.jpg"]%string eq_refl) as [Hkey _].
    destruct (Hkey "tabby_cat"%string) as (_ & _ & Hraise & _).
    + reflexivity.
    + apply (bool_decide_unpack _). by vm_compute.
    + apply (Hraise tt). reflexivity.
  - destruct (C4_getitem_errors unit (fun _ _ => Ok tt)
             (Pets.Build [["PETS"; "images"; "tabby_cat_1.jpg"]; ["PETS"; "images"; "7.jpg"]]%string 128)
             1%Z ["PETS"; "images"; "7.jpg"]%string eq_refl) as [_ Hnone].
    destruct Hnone as (_ & _ & Hraise & _).
    + reflexivity.
    + apply (Hraise tt). reflexivity.
Defined.

End LabelClaims.


(** ** The statements on the small runs *)

Section Witnesses.

Lemma is_Okb_true {A} (r : Result A) : is_Okb r = true -> is_Ok r.
Proof. destruct r as [a|e]; [by exists a|discriminate]. Qed.

Lemma sample_okb_Forall {Tensor : Type} (tfms : nat -> Pets.Path -> Result Tensor) sz files :
  forallb (sample_okb tfms sz) files = true -> Forall (sample_ok tfms sz) files.
Proof.
  induction files as [|f files IH]; simpl; [constructor|].
  intros [[H1 H2]%andb_prop Hrest]%andb_prop.
  constructor; [|by apply IH]. split; by apply is_Okb_true.
Qed.

(** The hypotheses of the statements about [train], on the small runs. *)
Ltac demo_hyps :=
  first [ intros i j Hij; unfold demo_clock, Qnat; rewrite <- Zlt_Qlt; lia
        | vm_compute; lia
        | apply sample_okb_Forall; vm_compute; reflexivity ].

Lemma C1_metrics_emission_witness :
  exists st, demo_train = Ok st /\
    n_steps_per_epoch 7 2 = Ok 4 /\
    map ev_step (logged_events (epoch_events 1 (history st))) = [0; 1; 2] /\
    length (wandb_log st) = 6.
Proof.
  destruct (C1_metrics_emission demo_tfms demo_fit demo_clock demo_config demo_files)
    with (model0 := 0) as (st & Hrun & Hn & _ & Hsteps & _ & _ & Hsix);
    [demo_hyps..|].
  exists st. split; [exact Hrun|]. split; [exact Hn|].
  split; [apply (Hsteps 1); vm_compute; lia|].
  apply Hsix; reflexivity.
Defined.

Lemma C6_steps_per_epoch_and_batches_witness :
  n_steps_per_epoch 100 32 = Ok 4 /\
  map length (Loader.batches (Loader.Build (Pets.Build demo_files100 128) 32))
  = [32; 32; 32; 4].
Proof.
  destruct (C6_steps_per_epoch_and_batches demo_tfms demo_fit demo_clock
              demo_config100 demo_files100)
    with (model0 := 0) as (Hn & _ & _ & _ & _ & _ & Hinst);
    [demo_hyps..|].
  split; [exact Hn|]. apply Hinst; reflexivity.
Defined.

Lemma C7_example_ct_witness :
  exists st, demo_train = Ok st /\
    map (fun ev => train_example_ct (ev_metrics ev)) (history st)
    = [2; 4; 6; 7; 9; 11; 13; 14] /\
    sum_list (map ev_len (epoch_events 1 (history st))) = 7 /\
    example_ct st = 14.
Proof.
  destruct (C7_example_ct demo_tfms demo_fit demo_clock demo_config demo_files)
    with (model0 := 0) as (st & Hrun & _ & _ & _ & Hsum & _ & _ & Hex);
    [demo_hyps..|].
  exists st. split; [exact Hrun|]. split; [|split].
  - revert Hrun. vm_compute. by intros [= <-].
  - apply (Hsum 1). vm_compute. lia.
  - exact Hex.
Defined.

Lemma C8_fractional_epoch_witness :
  exists st ev, demo_train = Ok st /\
    history st !! 3 = Some ev /\ ev_epoch ev = 0 /\ ev_step ev = 3 /\
    (train_epoch (ev_metrics ev) == 1)%Q.
Proof.
  destruct (C8_fractional_epoch demo_tfms demo_fit demo_clock demo_config demo_files)
    with (model0 := 0) as (st & Hrun & _ & Hall & Hone & _);
    [demo_hyps..|].
  exists st.
  destruct (history st !! 3) as [ev|] eqn:Hev.
  2: { exfalso. revert Hrun Hev. vm_compute. intros [= <-]. discriminate. }
  assert (ev_epoch ev = 0 /\ ev_step ev = 3) as [He Hs].
  { revert Hrun Hev. vm_compute. intros [= <-] [= <-]. split; reflexivity. }
  exists ev. split; [exact Hrun|]. split; [reflexivity|].
  split; [exact He|]. split; [exact Hs|].
  apply Hone; [reflexivity| |exact He|exact Hs].
  apply list_elem_of_lookup. exists 3. exact Hev.
Defined.

Lemma C9_logged_epoch_below_boundary_witness :
  exists st, demo_train = Ok st /\
    map train_epoch (wandb_log st)
    = [1 # 4; 2 # 4; 3 # 4; 5 # 4; 6 # 4; 7 # 4]%Q /\
    forall m, m ∈ wandb_log st -> forall z : Z, ~ (train_epoch m == inject_Z z)%Q.
Proof.
  destruct (C9_logged_epoch_below_boundary demo_tfms demo_fit demo_clock
              demo_config demo_files)
    with (model0 := 0) as (st & Hrun & _ & _ & Hnot);
    [demo_hyps..|].
  exists st. split; [exact Hrun|]. split; [|exact Hnot].
  revert Hrun. vm_compute. by intros [= <-].
Defined.

Lemma C10_step_ct_witness :
  exists st, demo_train = Ok st /\ step_ct st = 2 * 4 /\ length (history st) = 8.
Proof.
  destruct (C10_step_ct demo_tfms demo_fit demo_clock demo_config demo_files)
    with (model0 := 0) as (_ & _ & st & Hrun & Hst & Hlen);
    [demo_hyps..|].
  exists st. split; [exact Hrun|]. split; [exact Hst|].
  rewrite <- Hlen. exact Hst.
Defined.

(** C5 (what the code does): in the small run, at the first batch of the
    second epoch, 2 examples have been processed and 2 seconds have elapsed
    since the epoch started, which would make 1 example per second; the
    logged [samples_per_sec_epoch] is 9/2, the run's whole [example_ct = 9]
    over those 2 seconds. *)
Theorem C5_samples_per_sec_epoch_counts_earlier_epochs :
  exists st ev,
    demo_train = Ok st /\
    history st !! 4 = Some ev /\
    ev_epoch ev = 1 /\ ev_step ev = 0 /\ ev_logged ev = true /\
    examples_since_epoch_start (history st) ev = 2 /\
    (ev_tf ev - ev_t0 ev == 2)%Q /\
    (spec_samples_per_sec_epoch (history st) ev == 1)%Q /\
    train_example_ct (ev_metrics ev) = 9 /\
    (samples_per_sec_epoch (ev_metrics ev) == 9 # 2)%Q /\
    ~ (samples_per_sec_epoch (ev_metrics ev)
       == spec_samples_per_sec_epoch (history st) ev)%Q.
Proof.
  eexists _, _. split; [vm_compute; reflexivity|].
  split; [vm_compute; reflexivity|].
  vm_compute. repeat split; discriminate.
Qed.

End Witnesses.


(** * Further properties *)

(** ** The label pattern, by runs *)

Section MatcherClosedForm.
Import Re Pets.

Lemma backtrack_hit lo k cont n :
  lo <= k -> cont k = Some n -> backtrack lo k cont = Some (k + n).
Proof.
  intros Hlo Hc. destruct k as [|k]; simpl.
  - destruct lo; [|lia]. simpl. by rewrite Hc.
  - destruct (Nat.ltb_spec (S k) lo); [lia|]. by rewrite Hc.
Qed.

Lemma backtrack_miss lo k cont :
  cont (S k) = None -> backtrack lo (S k) cont = if S k <? lo then None else backtrack lo k cont.
Proof. intros Hc. simpl. destruct (S k <? lo); [reflexivity|]. by rewrite Hc. Qed.

Lemma backtrack_all_None lo k cont :
  (forall j, lo <= j <= k -> cont j = None) -> backtrack lo k cont = None.
Proof.
  induction k as [|k IH]; intros Hall; simpl.
  - destruct lo; simpl; [|reflexivity]. rewrite (Hall 0); [reflexivity|lia].
  - destruct (Nat.ltb_spec (S k) lo); [reflexivity|].
    rewrite (Hall (S k)) by lia. apply IH. intros j Hj. apply Hall. lia.
Qed.

Lemma run_drop p s j : j <= run p s -> run p (drop j s) = run p s - j.
Proof.
  revert j. induction s as [|x s IH]; intros j Hj; simpl in *.
  - by rewrite drop_nil.
  - destruct j as [|j]; simpl; [by destruct (p x)|].
    destruct (p x); [|lia]. rewrite IH by lia. reflexivity.
Qed.

Lemma run_app p w s :
  Forall (fun x => p x = true) w -> run p (w ++ s) = length w + run p s.
Proof. induction 1 as [|x w Hx _ IH]; simpl; [reflexivity|]. by rewrite Hx, IH. Qed.

Lemma run_disjoint (p q : ascii -> bool) s :
  (forall x, p x = true -> q x = false) -> 0 < run p s -> run q s = 0.
Proof.
  intros Hpq. destruct s as [|x s]; simpl; [lia|].
  destruct (p x) eqn:E; [|lia]. by rewrite (Hpq x E).
Qed.

Lemma letter_not_underscore x : accepts letters x = true -> accepts (Lit "_") x = false.
Proof. destruct x as [[] [] [] [] [] [] [] []]; vm_compute; congruence. Qed.

Lemma underscore_not_letter x : accepts (Lit "_") x = true -> accepts letters x = false.
Proof. destruct x as [[] [] [] [] [] [] [] []]; vm_compute; congruence. Qed.

(** [[a-zA-Z]+] alone. *)
Lemma match_letters s :
  match_here [(letters, Plus)] s
  = if run (accepts letters) s =? 0 then None else Some (run (accepts letters) s).
Proof.
  cbn [match_here min_count].
  destruct (run (accepts letters) s) as [|k] eqn:E; [reflexivity|].
  rewrite (backtrack_hit 1 (S k) _ 0); [|lia|reflexivity].
  cbn [Nat.eqb]. f_equal. lia.
Qed.

(** [_*[a-zA-Z]+]: all the underscores, then all the letters. *)
Lemma match_underscores_letters s :
  let k := run (accepts (Lit "_")) s in
  let m := run (accepts letters) (drop k s) in
  match_here [(Lit "_", Star); (letters, Plus)] s
  = if m =? 0 then None else Some (k + m).
Proof.
  intros k m.
  change (match_here [(Lit "_", Star); (letters, Plus)] s)
    with (backtrack 0 k (fun j => match_here [(letters, Plus)] (drop j s))).
  destruct (Nat.eqb_spec m 0) as [Hm|Hm].
  - apply backtrack_all_None. intros j Hj. rewrite match_letters.
    destruct (decide (j = k)) as [->|Hne]; [fold m; by rewrite Hm|].
    rewrite (run_disjoint (accepts (Lit "_")) (accepts letters));
      [reflexivity|apply underscore_not_letter|].
    rewrite run_drop by lia. fold k. lia.
  - rewrite (backtrack_hit 0 k _ m); [reflexivity|lia|].
    rewrite match_letters. fold m. by destruct (Nat.eqb_spec m 0).
Qed.

(** The whole pattern, by the three runs at the start of the name: the
    leading letters, the underscores after them, the letters after those. *)
Lemma match_here_pat_runs (s : list ascii) :
  let n1 := run (accepts letters) s in
  let k := run (accepts (Lit "_")) (drop n1 s) in
  let m := run (accepts letters) (drop k (drop n1 s)) in
  match_here pat s
  = if n1 =? 0 then None
    else if negb (m =? 0) then Some (n1 + k + m)
    else if 2 <=? n1 then Some n1
    else None.
Proof.
  intros n1 k m.
  change (match_here pat s)
    with (backtrack 1 n1 (fun j => match_here [(Lit "_", Star); (letters, Plus)] (drop j s))).
  destruct (Nat.eqb_spec n1 0) as [H0|H0].
  { rewrite H0. reflexivity. }
  destruct (Nat.eqb_spec m 0) as [Hm|Hm]; cbn [negb].
  - (* the attempt with all the letters fails; one letter fewer succeeds *)
    destruct n1 as [|n1'] eqn:En1; [lia|].
    rewrite backtrack_miss.
    2: { rewrite match_underscores_letters. cbv zeta. fold k. fold m. by rewrite Hm. }
    destruct (Nat.ltb_spec (S n1') 1) as [?|_]; [lia|].
    destruct n1' as [|n2]; [reflexivity|].
    rewrite (backtrack_hit 1 (S n2) _ 1); [cbn [Nat.leb]; f_equal; lia|lia|].
    rewrite match_underscores_letters. cbv zeta.
    assert (run (accepts letters) (drop (S n2) s) = 1) as Hl.
    { rewrite run_drop by (fold n1; lia). fold n1. lia. }
    rewrite (run_disjoint (accepts letters) (accepts (Lit "_")));
      [|apply letter_not_underscore|lia].
    rewrite drop_0, Hl. reflexivity.
  - rewrite (backtrack_hit 1 n1 _ (k + m)); [f_equal; lia|lia|].
    rewrite match_underscores_letters. cbv zeta. fold k. fold m.
    by destruct (Nat.eqb_spec m 0).
Qed.

End MatcherClosedForm.


Section MatcherExtras.
Import Re Pets.

Lemma length_string_of_list_ascii l :
  String.length (string_of_list_ascii l) = length l.
Proof. induction l as [|x l IH]; simpl; [reflexivity|]. by rewrite IH. Qed.

Lemma list_ascii_of_string_app s1 s2 :
  list_ascii_of_string (String.append s1 s2)
  = list_ascii_of_string s1 ++ list_ascii_of_string s2.
Proof. induction s1 as [|x s1 IH]; simpl; [reflexivity|]. by rewrite IH. Qed.

Lemma re_match_length r s tok :
  re_match r s = Some tok ->
  match_here r (list_ascii_of_string s) = Some (String.length tok).
Proof.
  unfold re_match. destruct (match_here r _) as [n|] eqn:E; [|discriminate].
  intros [= <-]. apply match_here_sound in E as [Hn _].
  rewrite length_string_of_list_ascii, length_take. f_equal. lia.
Qed.

Lemma run_cons_false (p : ascii -> bool) x s : p x = false -> run p (x :: s) = 0.
Proof. intros H. cbn [run]. by rewrite H. Qed.

Lemma run_cons_true (p : ascii -> bool) x s : p x = true -> run p (x :: s) = S (run p s).
Proof. intros H. cbn [run]. by rewrite H. Qed.

(** The three runs at the start of [l1 ++ u ++ l2 ++ rest]. *)
Lemma runs_of_word l1 u l2 rest :
  Forall (fun x => is_letter x = true) l1 -> 1 <= length l1 ->
  Forall (fun x => is_underscore x = true) u ->
  Forall (fun x => is_letter x = true) l2 -> 1 <= length l2 ->
  let s := l1 ++ u ++ l2 ++ rest in
  let n1 := run (accepts letters) s in
  let k := run (accepts (Lit "_")) (drop n1 s) in
  let m := run (accepts letters) (drop k (drop n1 s)) in
  (u = [] /\ n1 = length l1 + length l2 + run (accepts letters) rest) \/
  (u <> [] /\ n1 = length l1 /\ k = length u /\
   m = length l2 + run (accepts letters) rest).
Proof.
  intros H1 Hn1 Hu H2 Hn2 s n1 k m. subst s.
  destruct u as [|x u].
  - left. split; [reflexivity|]. subst n1. rewrite app_nil_l.
    rewrite run_app, run_app by assumption. lia.
  - right. split; [discriminate|].
    assert (n1 = length l1) as Hn.
    { subst n1. rewrite run_app by assumption.
      apply Forall_cons in Hu as [Hx _].
      rewrite <- app_comm_cons, run_cons_false; [lia|].
      by apply underscore_not_letter. }
    assert (run (accepts (Lit "_")) (l2 ++ rest) = 0) as Hk0.
    { apply (run_disjoint (accepts letters)); [apply letter_not_underscore|].
      rewrite run_app by assumption. lia. }
    assert (k = length (x :: u)) as Hk.
    { subst k. rewrite Hn, drop_app_length.
      rewrite run_app by assumption. rewrite Hk0. lia. }
    split_and!; try assumption.
    subst m. rewrite Hk, Hn, drop_app_length, drop_app_length.
    by rewrite run_app.
Qed.

(** No prefix of the name that is a word of the pattern is longer than
    the match. *)
Lemma match_pat_longest (s tok : string) :
  re_match pat s = Some tok ->
  forall w rest, list_ascii_of_string s = w ++ rest -> in_lang pat w ->
                 length w <= String.length tok.
Proof.
  intros Hm w rest Hs Hw. apply re_match_length in Hm.
  rewrite match_here_pat_runs in Hm. cbv zeta in Hm.
  apply in_lang_pat in Hw as (l1 & u & l2 & -> & H1 & Hn1 & Hu & H2 & Hn2).
  rewrite Hs, <- !(assoc_L (++)) in Hm.
  pose proof (runs_of_word l1 u l2 rest H1 Hn1 Hu H2 Hn2) as Hruns. cbv zeta in Hruns.
  set (n1 := run _ _) in *. set (k := run _ (drop n1 _)) in *.
  set (m := run _ (drop k _)) in *. clearbody n1 k m.
  rewrite !length_app.
  destruct (Nat.eqb_spec n1 0); [discriminate|].
  destruct Hruns as [(-> & Hn)|(_ & Hn & Hk & Hmm)].
  - cbn [length]. destruct (Nat.eqb_spec m 0); cbn [negb] in Hm.
    + destruct (2 <=? n1); [|discriminate]. injection Hm as <-. lia.
    + injection Hm as <-. lia.
  - destruct (Nat.eqb_spec m 0); [lia|]. cbn [negb] in Hm. injection Hm as <-. lia.
Qed.

(** X2: greedy matching with backtracking returns, for this pattern, the
    longest prefix of the name that is a word of the pattern: the match is
    a prefix of the name, it is a word of the pattern, and no prefix of the
    name that is a word of the pattern is longer. *)
Theorem re_match_pat_longest (s tok : string) :
  re_match pat s = Some tok ->
  (exists rest, s = String.append tok rest) /\
  in_lang pat (list_ascii_of_string tok) /\
  forall w rest, list_ascii_of_string s = w ++ rest -> in_lang pat w ->
                 length w <= String.length tok.
Proof.
  intros Hm. destruct (re_match_Some _ _ _ Hm) as [Hl Hp].
  split; [exact Hp|]. split; [exact Hl|].
  intros w rest. by apply match_pat_longest.
Qed.

Lemma vocab_words : Forall (fun v => re_match pat v = Some v) vocab.
Proof. apply (bool_decide_unpack _). by vm_compute. Qed.

Lemma match_here_pat_tight w d rest :
  in_lang pat w -> is_letter d = false -> is_underscore d = false ->
  match_here pat (w ++ "_"%char :: d :: rest) = Some (length w).
Proof.
  intros Hw Hd1 Hd2. rewrite match_here_pat_runs. cbv zeta.
  pose proof Hw as (l1 & u & l2 & -> & H1 & Hn1 & Hu & H2 & Hn2)%in_lang_pat.
  rewrite <- !(assoc_L (++)).
  pose proof (runs_of_word l1 u l2 ("_"%char :: d :: rest) H1 Hn1 Hu H2 Hn2) as Hruns.
  cbv zeta in Hruns.
  assert (run (accepts letters) ("_"%char :: d :: rest) = 0) as Hr
    by (by apply run_cons_false).
  rewrite Hr in Hruns.
  destruct Hruns as [(-> & Hn)|(_ & Hn & Hk & Hmm)].
  - rewrite !app_nil_l in *. rewrite Hn. rewrite Nat.add_0_r.
    replace (length l1 + length l2) with (length (l1 ++ l2)) by by rewrite length_app.
    rewrite (assoc_L (++)), drop_app_length.
    assert (run (accepts (Lit "_")) ("_"%char :: d :: rest) = 1) as ->.
    { rewrite run_cons_true by reflexivity. by rewrite run_cons_false. }
    assert (run (accepts letters) (drop 1 ("_"%char :: d :: rest)) = 0) as ->.
    { cbn [drop]. by apply run_cons_false. }
    rewrite length_app.
    destruct (Nat.eqb_spec (length l1 + length l2) 0); [lia|]. cbn [Nat.eqb negb].
    destruct (Nat.leb_spec 2 (length l1 + length l2)); [reflexivity|lia].
  - rewrite Hmm, Hk, Hn. rewrite !length_app.
    destruct (Nat.eqb_spec (length l1) 0); [lia|].
    destruct (Nat.eqb_spec (length l2 + 0) 0); [lia|]. cbn [negb]. f_equal. lia.
Qed.

(** X3: every vocabulary name is read back from a file named after it:
    for [vocab[k] = v], a file named [v], an underscore, a character that is
    neither a letter nor an underscore (a digit of the image number), and
    anything after it, matches as [v] and gets the label [k]. *)
Theorem label_of_vocab_name (file : Path) (v : string) (d : ascii) (rest : string) (k : nat) :
  vocab !! k = Some v ->
  is_letter d = false -> is_underscore d = false ->
  name file = String.append v (String "_" (String d rest)) ->
  re_match pat (name file) = Some v /\ label_of file = Ok k.
Proof.
  intros Hk Hd1 Hd2 Hname.
  assert (re_match pat (name file) = Some v) as Hm.
  { pose proof (proj1 (Forall_lookup _ _) vocab_words k v Hk) as Hv. simpl in Hv.
    apply re_match_Some in Hv as [Hl _].
    unfold re_match. rewrite Hname, list_ascii_of_string_app.
    cbn [list_ascii_of_string]. cbv zeta.
    rewrite (match_here_pat_tight _ d _ Hl Hd1 Hd2).
    rewrite take_app_length. by rewrite string_of_list_ascii_of_string. }
  split; [exact Hm|]. rewrite (label_of_match _ _ Hm).
  unfold dict_getitem. by rewrite (proj2 (vocab_map_lookup v k) Hk).
Qed.

End MatcherExtras.

(** ** The label key *)

Section LabelKeyClaim.
Import Re Pets.

(** C2 (as amended): the label key of a file name is the text matched at
    its start by [pat], one or more letters, any underscores, one or more
    letters.  With [n1] leading letters, then [k] underscores, then [m]
    letters, it is the first [n1 + k + m] characters when [n1 > 0] and
    [m > 0], otherwise the [n1] leading letters when [n1 >= 2], otherwise
    there is no match.  The match is unique; it is a prefix of the name and
    a word of the pattern, the longest such prefix, made of letters and
    underscores only, without digits, and it is the key looked up in
    [vocab_map]; a name without a match makes [__getitem__] fail
    ([TypeError]) instead of returning a sample. *)
Theorem C2_label_extraction (fname : string) :
  let cs := list_ascii_of_string fname in
  let n1 := run (accepts letters) cs in
  let k := run (accepts (Lit "_")) (drop n1 cs) in
  let m := run (accepts letters) (drop k (drop n1 cs)) in
  re_match pat fname
  = (if n1 =? 0 then None
     else if negb (m =? 0) then Some (string_of_list_ascii (take (n1 + k + m) cs))
     else if 2 <=? n1 then Some (string_of_list_ascii (take n1 cs))
     else None) /\
  ((exists w rest, cs = w ++ rest /\ in_lang pat w) ->
   exists! tok, re_match pat fname = Some tok) /\
  (forall tok, re_match pat fname = Some tok ->
     (exists rest, fname = String.append tok rest) /\
     in_lang pat (list_ascii_of_string tok) /\
     (forall w rest, cs = w ++ rest -> in_lang pat w ->
                     length w <= String.length tok) /\
     tok <> ""%string /\
     Forall (fun x => is_letter x || is_underscore x = true) (list_ascii_of_string tok) /\
     Forall (fun x => is_digit x = false) (list_ascii_of_string tok) /\
     forall file, name file = fname -> label_of file = dict_getitem vocab_map tok) /\
  (re_match pat fname = None ->
   (forall w rest, cs = w ++ rest -> ~ in_lang pat w) /\
   forall (Tensor : Type) (tfms : nat -> Path -> Result Tensor) ds idx file,
     list_getitem (files ds) idx = Ok file -> name file = fname ->
     label_of file = Raise TypeError /\ ~ is_Ok (__getitem__ tfms ds idx)).
Proof.
  intros cs n1 k m. split_and!.
  - unfold re_match. fold cs. rewrite match_here_pat_runs.
    cbv zeta. fold n1 k m.
    destruct (n1 =? 0); [reflexivity|].
    destruct (negb (m =? 0)); [reflexivity|].
    destruct (2 <=? n1); reflexivity.
  - intros [tok Htok]%re_match_is_Some. exists tok. split; [assumption|].
    intros tok' Htok'. congruence.
  - intros tok Htok. destruct (re_match_Some _ _ _ Htok) as [Hl Hp].
    destruct (in_lang_pat_chars _ Hl) as (Hne & Hc & Hd).
    split_and!; try assumption.
    + intros w rest. by apply match_pat_longest.
    + intros ->. by apply Hne.
    + intros file <-. by apply label_of_match.
  - intros Hn. split.
    + intros w rest Hcs Hw.
      assert (is_Some (re_match pat fname)) as [tok Htok]
        by (apply re_match_is_Some; eauto).
      congruence.
    + intros Tensor tfms ds idx file Hf <-.
      pose proof (label_of_no_match _ Hn) as Hl. split; [assumption|].
      by destruct (getitem_label_raise tfms ds idx file _ Hf Hl).
Qed.

Lemma C2_label_extraction_witness :
  re_match pat "american_pit_bull_terrier_3.jpg" = Some "american_pit"%string /\
  (exists rest, "american_pit_bull_terrier_3.jpg"%string
                = String.append "american_pit" rest) /\
  in_lang pat (list_ascii_of_string "american_pit") /\
  (forall file, name file = "american_pit_bull_terrier_3.jpg"%string ->
                label_of file = dict_getitem vocab_map "american_pit") /\
  re_match pat "a_1.jpg" = None /\
  (forall file, name file = "a_1.jpg"%string -> label_of file = Raise TypeError).
Proof.
  destruct (C2_label_extraction "american_pit_bull_terrier_3.jpg")
    as (Hform & _ & Htok & _).
  destruct (C2_label_extraction "a_1.jpg") as (Hform' & _ & _ & Hnone).
  destruct (Htok "american_pit"%string Hform) as (Hpre & Hlang & _ & _ & _ & _ & Hkey).
  destruct (Hnone Hform') as [_ Hfail].
  split; [exact Hform|]. split; [exact Hpre|]. split; [exact Hlang|].
  split; [exact Hkey|]. split; [exact Hform'|].
  intros file Hname.
  apply (Hfail unit (fun _ _ => Ok tt) (Pets.Build [file] 128) 0%Z file eq_refl Hname).
Defined.

(** C2 as stated fails: the leading run of letters and underscores of
    [american_pit_bull_terrier_3.jpg] is [american_pit_bull_terrier_], the
    key extracted is [american_pit]; [a_1.jpg] starts with such a run, [a_],
    and has no match at all. *)
Lemma C2_counterexample :
  spec_leading_token "american_pit_bull_terrier_3.jpg"
  = "american_pit_bull_terrier_"%string /\
  re_match pat "american_pit_bull_terrier_3.jpg" = Some "american_pit"%string /\
  spec_leading_token "a_1.jpg" = "a_"%string /\
  re_match pat "a_1.jpg" = None /\
  ~ (forall fname, spec_leading_token fname <> ""%string ->
                   re_match pat fname = Some (spec_leading_token fname)).
Proof.
  split_and!; [reflexivity..|].
  intros H. specialize (H "a_1.jpg"%string). 
  assert (re_match pat "a_1.jpg" = None) as Hn by reflexivity.
  rewrite Hn in H. discriminate H. intros Heq. discriminate Heq.
Qed.

End LabelKeyClaim.

(** ** [__getitem__] *)

Section GetitemExtras.
Import Re Pets.

(** X1: the match of [pat] is decided by three runs at the start of the
    name, the leading letters ([n1] of them), the underscores after them
    ([k]) and the letters after those ([m]): no match without a leading
    letter; all three runs when [m > 0]; otherwise the leading letters
    alone, if there are at least two; otherwise no match.  So a one-letter
    name such as [a_1.jpg] has no label. *)
Theorem re_match_pat_runs (s : string) :
  let cs := list_ascii_of_string s in
  let n1 := run (accepts letters) cs in
  let k := run (accepts (Lit "_")) (drop n1 cs) in
  let m := run (accepts letters) (drop k (drop n1 cs)) in
  re_match pat s
  = if n1 =? 0 then None
    else if negb (m =? 0) then Some (string_of_list_ascii (take (n1 + k + m) cs))
    else if 2 <=? n1 then Some (string_of_list_ascii (take n1 cs))
    else None.
Proof.
  intros cs n1 k m. unfold re_match. fold cs. rewrite match_here_pat_runs.
  cbv zeta. fold n1 k m.
  destruct (n1 =? 0); [reflexivity|].
  destruct (negb (m =? 0)); [reflexivity|].
  destruct (2 <=? n1); reflexivity.
Qed.

Context {Tensor : Type} (tfms_load_image : nat -> Path -> Result Tensor).

Lemma label_of_Ok_inv (file : Path) (k : nat) :
  label_of file = Ok k ->
  exists tok, re_match pat (name file) = Some tok /\ vocab !! k = Some tok.
Proof.
  unfold label_of.
  destruct (re_match pat (name file)) as [tok|]; [|discriminate].
  cbn [group0 mbind Result_bind]. unfold dict_getitem.
  destruct (vocab_map !! tok) as [k'|] eqn:Hk; [|discriminate].
  intros [= ->]. exists tok. split; [reflexivity|]. by apply vocab_map_lookup.
Qed.

(** X4: whatever [__getitem__] returns is a valid class for a model built
    with [len(vocab)] outputs: the label is below [len(vocab)] and is the
    position in [vocab] of the token matched in the file's name; the image
    is the one loaded from that file. *)
Theorem getitem_Ok_inv (ds : Pets.t) (idx : Z) (img : Tensor) (k : nat) :
  __getitem__ tfms_load_image ds idx = Ok (img, k) ->
  k < length vocab /\
  exists file tok,
    list_getitem (files ds) idx = Ok file /\
    tfms_load_image (Pets.image_size ds) file = Ok img /\
    re_match pat (name file) = Some tok /\
    vocab !! k = Some tok.
Proof.
  unfold __getitem__.
  destruct (list_getitem (files ds) idx) as [file|e] eqn:Hf; [|discriminate].
  cbn [mbind Result_bind].
  destruct (tfms_load_image _ file) as [img'|e] eqn:Himg; [|discriminate].
  destruct (label_of file) as [k'|e] eqn:Hl; [|discriminate].
  intros [= -> ->]. apply label_of_Ok_inv in Hl as (tok & Hm & Hk).
  split; [apply lookup_lt_Some in Hk; exact Hk|].
  exists file, tok. split_and!; [reflexivity|exact Himg|exact Hm|exact Hk].
Qed.

(** X5: [__getitem__] indexes like a Python list: an index at or beyond
    [len] or below [-len] raises [IndexError] before any file is opened, a
    negative index in range stands for [idx + len], and an index in range
    selects one of the dataset's files. *)
Theorem getitem_index (ds : Pets.t) (idx : Z) :
  let n := Z.of_nat (__len__ ds) in
  ((n <= idx \/ idx < - n)%Z ->
     __getitem__ tfms_load_image ds idx = Raise IndexError) /\
  ((- n <= idx < 0)%Z ->
     __getitem__ tfms_load_image ds idx = __getitem__ tfms_load_image ds (idx + n)) /\
  ((- n <= idx < n)%Z ->
     exists file, list_getitem (files ds) idx = Ok file /\ file ∈ files ds).
Proof.
  intros n. unfold __getitem__, list_getitem, __len__ in *. fold n.
  split_and!.
  - intros Hout. destruct (Z.ltb_spec idx 0).
    + destruct (Z.ltb_spec (idx + n) 0); [reflexivity|lia].
    + destruct (Z.ltb_spec idx 0); [lia|].
      rewrite (proj2 (lookup_ge_None _ _)); [reflexivity|lia].
  - intros Hneg. destruct (Z.ltb_spec idx 0); [|lia].
    destruct (Z.ltb_spec (idx + n) 0); [lia|].
    destruct (Z.ltb_spec (idx + n) 0); [lia|]. reflexivity.
  - intros Hin.
    set (i := if (idx <? 0)%Z then (idx + n)%Z else idx).
    assert (0 <= i < n)%Z as Hi by (subst i; destruct (Z.ltb_spec idx 0); lia).
    destruct (Z.ltb_spec i 0); [lia|].
    destruct (lookup_lt_is_Some_2 (files ds) (Z.to_nat i)) as [file Hfile]; [lia|].
    rewrite Hfile. exists file. split; [reflexivity|].
    apply list_elem_of_lookup. eauto.
Qed.

End GetitemExtras.

(** ** Runs that fail, runs on nothing *)

Section AbortExtras.
Context {Tensor Model Loss : Type}.
Variable tfms_load_image : nat -> Pets.Path -> Result Tensor.
Variable fit : Model -> list Tensor -> list nat -> Model * Loss.
Variable perf_counter : nat -> Q.

Lemma getitem_not_sample_ok (ds : Pets.t) (i : nat) (file : Pets.Path) :
  Pets.files ds !! i = Some file ->
  ~ sample_ok tfms_load_image (Pets.image_size ds) file ->
  ~ is_Ok (Pets.__getitem__ tfms_load_image ds (Z.of_nat i)).
Proof.
  intros Hf Hbad [[img k] Hok]. apply Hbad.
  unfold Pets.__getitem__ in Hok. rewrite (list_getitem_nat _ _ _ Hf) in Hok.
  cbn [mbind Result_bind] in Hok.
  destruct (tfms_load_image _ file) as [img'|e] eqn:Himg; [|discriminate].
  destruct (Pets.label_of file) as [k'|e] eqn:Hk; [|discriminate].
  split; [by exists img'|by exists k'].
Qed.

Lemma epoch_loop_bad_index dl n e t0 todo : forall s (st : @State Model Loss) idx idxs,
  idxs ∈ todo -> idx ∈ idxs ->
  ~ is_Ok (Pets.__getitem__ tfms_load_image (Loader.dataset dl) idx) ->
  ~ is_Ok (epoch_loop tfms_load_image fit perf_counter dl n e t0 s todo st).
Proof.
  induction todo as [|b todo IH]; intros s st idx idxs Hin Hidx Hbad.
  - by apply elem_of_nil in Hin.
  - cbn [epoch_loop].
    destruct (Loader.fetch tfms_load_image dl b) as [batch|err] eqn:Hfetch;
      cbn [mbind Result_bind]; [|by intros [? ?]].
    destruct (batch_body fit perf_counter n e t0 s batch st) as [st'|err];
      cbn [mbind Result_bind]; [|by intros [? ?]].
    apply elem_of_cons in Hin as [->|Hin].
    + exfalso. apply (mapM_Result_raise _ _ idx Hidx Hbad).
      exists batch. exact Hfetch.
    + by apply (IH (S s) st' idx idxs).
Qed.

Lemma elem_of_concat_inv {A} (x : A) (bs : list (list A)) :
  x ∈ concat bs -> exists b, b ∈ bs /\ x ∈ b.
Proof.
  induction bs as [|b bs IH]; simpl; [by intros ?%elem_of_nil|].
  intros [Hx|Hx]%elem_of_app.
  - exists b. split; [apply elem_of_cons; by left|exact Hx].
  - destruct (IH Hx) as (b' & Hb' & Hx'). exists b'.
    split; [apply elem_of_cons; by right|exact Hx'].
Qed.

(** X6: one file from which no sample can be built (its image does not
    load, its name has no match, or its token is not in the vocabulary)
    makes every run of at least one epoch fail: [train] raises, whatever
    the batch size, the clock and the other files. *)
Theorem train_bad_file_aborts (config : Config) (dataset_files : list Pets.Path)
    (model0 : Model) (i : nat) (file : Pets.Path) :
  dataset_files !! i = Some file ->
  ~ sample_ok tfms_load_image (image_size config) file ->
  0 < epochs config ->
  ~ is_Ok (train tfms_load_image fit perf_counter config dataset_files model0).
Proof.
  intros Hf Hbad He. unfold train, get_dataloader.
  destruct (batch_size config =? 0); cbn [mbind Result_bind]; [by intros [? ?]|].
  destruct (n_steps_per_epoch _ _) as [n|err]; cbn [mbind Result_bind];
    [|by intros [? ?]].
  destruct (epochs config) as [|k]; [lia|]. cbn [epochs_loop].
  set (dl := Loader.Build _ _).
  assert (~ is_Ok (epoch_body tfms_load_image fit perf_counter dl n 0
                     (init_state (Loss := Loss) model0))) as Hep.
  { unfold epoch_body.
    assert (Z.of_nat i ∈ concat (Loader.batches dl)) as Hi.
    { rewrite batches_concat. unfold Loader.SequentialSampler.
      apply list_elem_of_fmap. exists i. split; [reflexivity|].
      apply elem_of_seq. apply lookup_lt_Some in Hf.
      unfold Pets.__len__. simpl. lia. }
    apply elem_of_concat_inv in Hi as (b & Hb & Hib).
    apply (epoch_loop_bad_index dl n 0 _ _ 0 _ (Z.of_nat i) b Hb Hib).
    by apply (getitem_not_sample_ok _ i file). }
  destruct (epoch_body _ _ _ dl n 0 _) as [st|err]; cbn [mbind Result_bind].
  - exfalso. apply Hep. by exists st.
  - by intros [? ?].
Qed.

(** No files: every epoch reads the clock once and does nothing else. *)
Lemma epochs_loop_no_batches dl n todo : forall e (st : @State Model Loss),
  Loader.batches dl = [] ->
  epochs_loop tfms_load_image fit perf_counter dl n e todo st
  = Ok {| example_ct := example_ct st; step_ct := step_ct st; model := model st;
          clock := todo + clock st; wandb_log := wandb_log st;
          history := history st |}.
Proof.
  induction todo as [|todo IH]; intros e st Hnil; cbn [epochs_loop].
  - by destruct st.
  - unfold epoch_body. rewrite Hnil. cbn [epoch_loop mbind Result_bind].
    rewrite IH by assumption. cbn. do 2 f_equal. lia.
Qed.

(** X7: on a dataset without files a run completes, reading the clock once
    per epoch and doing nothing else: the counters stay at 0, nothing is
    logged, and the division by [n_steps_per_epoch = 0] is never reached. *)
Theorem train_empty_dataset (config : Config) (model0 : Model) :
  0 < batch_size config ->
  train tfms_load_image fit perf_counter config [] model0
  = Ok {| example_ct := 0; step_ct := 0; model := model0;
          clock := epochs config; wandb_log := []; history := [] |}.
Proof.
  intros Hb. unfold train, get_dataloader.
  destruct (Nat.eqb_spec (batch_size config) 0) as [?|_]; [lia|].
  cbn [mbind Result_bind].
  rewrite n_steps_per_epoch_ceil by assumption. cbn [mbind Result_bind].
  rewrite epochs_loop_no_batches by reflexivity. cbn. do 2 f_equal. lia.
Qed.

Lemma truediv_zero a b : (b == 0)%Q -> truediv a b = Raise ZeroDivisionError.
Proof. intros Hb. unfold truediv. by rewrite (proj2 (Qeq_bool_iff b 0) Hb). Qed.

(** X8: if the clock does not advance between the two readings around the
    first training step, [len(images)/(tf-ti)] divides by zero and the run
    raises [ZeroDivisionError]. *)
Theorem train_stalled_clock (config : Config) (dataset_files : list Pets.Path)
    (model0 : Model) :
  0 < batch_size config ->
  0 < epochs config ->
  dataset_files <> [] ->
  Forall (sample_ok tfms_load_image (image_size config)) dataset_files ->
  (perf_counter 2 == perf_counter 1)%Q ->
  train tfms_load_image fit perf_counter config dataset_files model0
  = Raise ZeroDivisionError.
Proof.
  intros Hb He Hne Hfiles Hstall. unfold train, get_dataloader.
  destruct (Nat.eqb_spec (batch_size config) 0) as [?|_]; [lia|].
  cbn [mbind Result_bind].
  rewrite n_steps_per_epoch_ceil by assumption. cbn [mbind Result_bind].
  destruct (epochs config) as [|k]; [lia|]. cbn [epochs_loop].
  set (dl := Loader.Build _ _). unfold epoch_body.
  pose proof (lens_length dl Hb) as Hlen. rewrite length_map in Hlen.
  pose proof (batches_in_range dl) as Hrange.
  pose proof (lens_sum dl Hb) as Hsum.
  destruct (Loader.batches dl) as [|idxs todo] eqn:Hbs.
  { exfalso. change (0 = length dataset_files) in Hsum.
    destruct dataset_files; [by apply Hne|discriminate]. }
  apply Forall_cons in Hrange as [Hidxs _].
  cbn [epoch_loop].
  destruct (fetch_ok tfms_load_image dl Hfiles idxs Hidxs) as (batch & -> & _).
  cbn [mbind Result_bind]. unfold batch_body.
  destruct (fit _ _ _) as [model' loss]. cbn [clock init_state].
  rewrite (truediv_Ok _ (Qnat _)).
  2: { apply Qnat_nonzero.
       change (0 < ceil_div (Pets.__len__ (Loader.dataset dl)) (Loader.batch_size dl)).
       rewrite <- Hlen. cbn [length]. lia. }
  cbn [mbind Result_bind].
  rewrite (truediv_zero _ (perf_counter 2 - perf_counter 1)); [reflexivity|].
  rewrite Hstall. ring.
Qed.

End AbortExtras.

(** ** Runs that complete *)
Section RunExtras.
Context {Tensor Model Loss : Type}.
Variable tfms_load_image : nat -> Pets.Path -> Result Tensor.
Variable fit : Model -> list Tensor -> list nat -> Model * Loss.
Variable perf_counter : nat -> Q.
Variable config : Config.
Variable dataset_files : list Pets.Path.
Hypothesis Hclock : clock_increasing perf_counter.
Hypothesis Hb : 0 < batch_size config.
Hypothesis Hfiles : Forall (sample_ok tfms_load_image (image_size config)) dataset_files.

Let N := length dataset_files.
Let n := ceil_div N (batch_size config).
Let dl := Loader.Build (Pets.Build dataset_files (image_size config)) (batch_size config).
Let lens := map length (Loader.batches dl).

Local Lemma lens_n' : length lens = n.
Proof. apply (lens_length dl Hb). Qed.

(** The number of records a run logs. *)
Lemma train_log_length (st : @State Model Loss) :
  wandb_log st = map ev_metrics (logged_events (history st)) ->
  history st = concat (map (fun e => epoch_events e (history st)) (seq 0 (epochs config))) ->
  (forall e, e < epochs config ->
             epoch_ok n e (e * N) lens (epoch_events e (history st))) ->
  length (wandb_log st) = epochs config * (n - 1).
Proof.
  intros Hw Hh Hoks. rewrite Hw, length_map, Hh.
  rewrite (logged_events_concat_length (n - 1)).
  - by rewrite length_map, length_seq.
  - apply Forall_fmap, Forall_forall. intros e [_ He]%elem_of_seq. simpl.
    rewrite (epoch_ok_logged n e _ lens _ lens_n' (Hoks e He)), length_take.
    rewrite (epoch_ok_length _ _ _ _ _ (Hoks e He)), lens_n'. lia.
Qed.

Lemma ceil_div_le_1 a b : 0 < b -> a <= b -> ceil_div a b <= 1.
Proof.
  intros Hb' Hab. unfold ceil_div.
  destruct (decide (a = b)) as [->|Hne].
  - rewrite Nat.div_same, Nat.Div0.mod_same by lia. simpl. lia.
  - rewrite Nat.div_small, Nat.mod_small by lia. destruct (a =? 0); lia.
Qed.

(** X9: when the whole dataset fits in one batch, the only batch of each
    epoch is its final one, so a run completes without logging anything,
    however many epochs it has. *)
Theorem train_single_batch_logs_nothing (model0 : Model) :
  N <= batch_size config ->
  exists st,
    train tfms_load_image fit perf_counter config dataset_files model0 = Ok st /\
    wandb_log st = [] /\
    length (history st) = (if N =? 0 then 0 else epochs config) /\
    example_ct st = epochs config * N.
Proof.
  intros Hsmall.
  destruct (train_run tfms_load_image fit perf_counter config dataset_files
              Hclock Hb Hfiles model0)
    as (st & Hrun & Hex & Hst & Hw & Hh & Hoks & Hchain).
  fold N n dl lens in Hex, Hst, Hoks.
  pose proof (ceil_div_le_1 N (batch_size config) Hb Hsmall) as Hn1. fold n in Hn1.
  exists st. split; [exact Hrun|]. split_and!.
  - apply length_zero_iff_nil.
    rewrite (train_log_length st Hw Hh Hoks). nia.
  - rewrite Hh, (length_concat_const n).
    + rewrite length_map, length_seq. unfold n, ceil_div.
      destruct (Nat.eqb_spec N 0) as [->|HN].
      * rewrite Nat.Div0.div_0_l, Nat.Div0.mod_0_l. simpl. lia.
      * assert (n = 1) as Hn.
        { pose proof (lens_sum dl Hb) as Hs. change (sum_list lens = N) in Hs.
          pose proof lens_n' as Hl. destruct lens; simpl in *; lia. }
        fold (ceil_div N (batch_size config)). fold n. lia.
    + apply Forall_fmap, Forall_forall. intros e [_ He]%elem_of_seq. simpl.
      by rewrite (epoch_ok_length _ _ _ _ _ (Hoks e He)), lens_n'.
  - exact Hex.
Qed.


Lemma concat_lookup_blocks {A} (k : nat) (ls : list (list A)) :
  Forall (fun l => length l = k) ls ->
  forall i x, concat ls !! i = Some x ->
    exists e j l, i = e * k + j /\ j < k /\ ls !! e = Some l /\ l !! j = Some x.
Proof.
  induction 1 as [|l ls Hl _ IH]; intros i x Hi; [done|].
  simpl in Hi. apply lookup_app_Some in Hi as [Hi|[Hge Hi]].
  - exists 0, i, l. split_and!; [lia| |reflexivity|exact Hi].
    apply lookup_lt_Some in Hi. lia.
  - destruct (IH _ _ Hi) as (e & j & l' & Hij & Hj & He & Hx).
    exists (S e), j, l'. split_and!; [lia|exact Hj|exact He|exact Hx].
Qed.

Lemma history_position (h : list (@Event Loss)) i ev :
  h = concat (map (fun e => epoch_events e h) (seq 0 (epochs config))) ->
  (forall e, e < epochs config -> epoch_ok n e (e * N) lens (epoch_events e h)) ->
  h !! i = Some ev ->
  0 < n /\ ev_step ev < n /\ ev_epoch ev * n + ev_step ev = i /\
  train_epoch (ev_metrics ev) = (Qnat (i + 1) / Qnat n)%Q.
Proof.
  intros Hh Hoks Hi. rewrite Hh in Hi.
  apply (concat_lookup_blocks n) in Hi as (e & j & l & -> & Hj & He & Hx).
  2: { apply Forall_fmap, Forall_forall. intros e [_ He]%elem_of_seq. simpl.
       by rewrite (epoch_ok_length _ _ _ _ _ (Hoks e He)), lens_n'. }
  rewrite list_lookup_fmap in He.
  destruct (seq 0 (epochs config) !! e) as [e'|] eqn:Hseq; [|discriminate].
  apply lookup_seq in Hseq as [-> He']. simpl in He. injection He as <-.
  destruct (epoch_ok_event _ _ _ _ _ _ _ (Hoks e He') Hx)
    as (len & _ & Hep & Hs & _ & _ & Hfrac & _).
  rewrite Hep, Hs, Hfrac. split_and!; [lia|exact Hj|reflexivity|].
  do 2 f_equal. lia.
Qed.

(** X10: the [i]-th batch of a run (from 0, across epochs) is step
    [i mod n] of epoch [i div n] and carries [train/epoch = (i + 1) / n], so
    this value is strictly increasing along the run. *)
Theorem train_epoch_by_batch_number (model0 : Model) :
  exists st,
    train tfms_load_image fit perf_counter config dataset_files model0 = Ok st /\
    (forall i ev, history st !! i = Some ev ->
       ev_step ev < n /\
       ev_epoch ev * n + ev_step ev = i /\
       ev_epoch ev = i / n /\
       ev_step ev = i mod n /\
       train_epoch (ev_metrics ev) = (Qnat (i + 1) / Qnat n)%Q) /\
    (forall i j ev1 ev2, i < j ->
       history st !! i = Some ev1 -> history st !! j = Some ev2 ->
       (train_epoch (ev_metrics ev1) < train_epoch (ev_metrics ev2))%Q).
Proof.
  destruct (train_run tfms_load_image fit perf_counter config dataset_files
              Hclock Hb Hfiles model0)
    as (st & Hrun & Hex & Hst & Hw & Hh & Hoks & Hchain).
  fold N n dl lens in Hex, Hst, Hoks.
  exists st. split; [exact Hrun|]. split.
  - intros i ev Hi.
    destruct (history_position _ i ev Hh Hoks Hi) as (Hn & Hs & Hpos & Hfrac).
    split_and!; [exact Hs|exact Hpos| | |exact Hfrac].
    + apply (Nat.div_unique i n (ev_epoch ev) (ev_step ev)); lia.
    + apply (Nat.mod_unique i n (ev_epoch ev) (ev_step ev)); lia.
  - intros i j ev1 ev2 Hij Hi Hj.
    destruct (history_position _ i ev1 Hh Hoks Hi) as (Hn & _ & _ & ->).
    destruct (history_position _ j ev2 Hh Hoks Hj) as (_ & _ & _ & ->).
    apply Qmult_lt_compat_r.
    + apply Qinv_lt_0_compat. apply (Qnat_lt 0 n Hn).
    + apply Qnat_lt. lia.
Qed.


(** *** Clock readings *)


Lemma batch_body_times n' e k0 s batch (st st' : @State Model Loss) :
  batch_body fit perf_counter n' e (perf_counter k0) s batch st = Ok st' ->
  k0 < clock st -> Forall times_ok (history st) ->
  Forall times_ok (history st') /\ clock st < clock st'.
Proof.
  unfold batch_body. destruct (fit _ _ _) as [model' loss].
  destruct (truediv _ (Qnat n')) as [frac|]; cbn [mbind Result_bind]; [|discriminate].
  destruct (truediv _ (perf_counter (S (clock st)) - perf_counter (clock st))%Q)
    as [sps|]; cbn [mbind Result_bind]; [|discriminate].
  destruct (truediv _ _) as [spse|]; cbn [mbind Result_bind]; [|discriminate].
  intros [= <-] Hk Hall. cbn [history clock]. split; [|lia].
  apply Forall_app. split; [exact Hall|]. apply Forall_singleton.
  split; cbn [ev_t0 ev_ti ev_tf]; apply Hclock; lia.
Qed.

Lemma epoch_loop_times n' e k0 todo : forall s (st st' : @State Model Loss),
  epoch_loop tfms_load_image fit perf_counter dl n' e (perf_counter k0) s todo st = Ok st' ->
  k0 < clock st -> Forall times_ok (history st) ->
  Forall times_ok (history st') /\ clock st <= clock st'.
Proof.
  induction todo as [|idxs todo IH]; intros s st st'; cbn [epoch_loop].
  - intros [= <-] _ Hall. split; [exact Hall|lia].
  - destruct (Loader.fetch tfms_load_image dl idxs) as [batch|];
      cbn [mbind Result_bind]; [|discriminate].
    destruct (batch_body fit perf_counter n' e (perf_counter k0) s batch st)
      as [st1|] eqn:Hbody; cbn [mbind Result_bind]; [|discriminate].
    intros Hloop Hk Hall.
    destruct (batch_body_times _ _ _ _ _ _ _ Hbody Hk Hall) as [Hall1 Hc1].
    destruct (IH _ _ _ Hloop ltac:(lia) Hall1) as [Hall' Hc']. split; [exact Hall'|lia].
Qed.

Lemma epochs_loop_times n' todo : forall e (st st' : @State Model Loss),
  epochs_loop tfms_load_image fit perf_counter dl n' e todo st = Ok st' ->
  Forall times_ok (history st) -> Forall times_ok (history st').
Proof.
  induction todo as [|todo IH]; intros e st st'; cbn [epochs_loop].
  - by intros [= <-].
  - destruct (epoch_body tfms_load_image fit perf_counter dl n' e st) as [st1|] eqn:Hep;
      cbn [mbind Result_bind]; [|discriminate].
    intros Hloop Hall. apply (IH _ _ _ Hloop).
    unfold epoch_body in Hep.
    by apply epoch_loop_times in Hep as [? _]; [|cbn [clock]; lia|].
Qed.

Lemma Qdiv_pos a b : (0 < a)%Q -> (0 < b)%Q -> (0 < a / b)%Q.
Proof. intros Ha Hb'. apply Qlt_shift_div_l; [exact Hb'|]. by rewrite Qmult_0_l. Qed.

Lemma Qminus_pos a b : (a < b)%Q -> (0 < b - a)%Q.
Proof. intros H. by apply (proj1 (Qlt_minus_iff a b)). Qed.

(** X11: in a run that completes, the three clock readings of every batch
    are ordered, [t0 < ti < tf], and both throughput metrics,
    [samples_per_sec] and [samples_per_sec_epoch], are positive. *)
Theorem train_throughput_positive (model0 : Model) :
  exists st,
    train tfms_load_image fit perf_counter config dataset_files model0 = Ok st /\
    forall ev, ev ∈ history st ->
      (ev_t0 ev < ev_ti ev)%Q /\ (ev_ti ev < ev_tf ev)%Q /\
      (0 < samples_per_sec (ev_metrics ev))%Q /\
      (0 < samples_per_sec_epoch (ev_metrics ev))%Q.
Proof.
  destruct (train_run tfms_load_image fit perf_counter config dataset_files
              Hclock Hb Hfiles model0)
    as (st & Hrun & Hex & Hst & Hw & Hh & Hoks & Hchain).
  fold N n dl lens in Hex, Hst, Hoks.
  exists st. split; [exact Hrun|]. intros ev Hev.
  assert (Forall times_ok (history st)) as Htimes.
  { pose proof Hrun as Hrun'. unfold train, get_dataloader in Hrun'.
    destruct (Nat.eqb_spec (batch_size config) 0) as [?|_]; [lia|].
    cbn [mbind Result_bind] in Hrun'.
    destruct (n_steps_per_epoch _ _) as [n'|]; cbn [mbind Result_bind] in Hrun';
      [|discriminate].
    apply epochs_loop_times in Hrun'; [exact Hrun'|constructor]. }
  destruct (proj1 (Forall_forall _ _) Htimes ev Hev) as [H0i Hif].
  destruct (train_events config dataset_files Hb _ Hh Hoks ev Hev)
    as (_ & _ & len & Hlen & Hok).
  destruct Hok as (_ & _ & _ & Hct & _ & Hsps & Hspse & _).
  split_and!; [exact H0i|exact Hif| |].
  - rewrite Hsps. apply Qdiv_pos; [|by apply Qminus_pos].
    apply (Qnat_lt 0). 
    pose proof (proj1 (Forall_lookup _ _) (lens_positive dl Hb) _ _ Hlen) as Hpos.
    simpl in Hpos. lia.
  - rewrite Hspse, <- Hct. apply Qdiv_pos.
    + apply (Qnat_lt 0). apply list_elem_of_lookup in Hev as [i Hi].
      apply (example_ct_chain_above 0 (history st) i ev Hchain Hi).
    + apply Qminus_pos. by apply (Qlt_trans _ (ev_ti ev)).
Qed.


(** *** What is logged, timing apart *)

Lemma filter_concat {A} (P : A -> Prop) `{forall x, Decision (P x)} (ls : list (list A)) :
  filter P (concat ls) = concat (map (filter P) ls).
Proof.
  induction ls as [|l ls IH]; [reflexivity|]. simpl. by rewrite filter_app, IH.
Qed.

Lemma train_logged_progress (st : @State Model Loss) :
  wandb_log st = map ev_metrics (logged_events (history st)) ->
  history st = concat (map (fun e => epoch_events e (history st)) (seq 0 (epochs config))) ->
  (forall e, e < epochs config ->
             epoch_ok n e (e * N) lens (epoch_events e (history st))) ->
  map progress_of (wandb_log st)
  = flat_map (fun e =>
      map (fun j => ((Qnat (j + 1 + n * e) / Qnat n)%Q,
                     e * N + sum_list (take (S j) lens)))
          (seq 0 (n - 1)))
      (seq 0 (epochs config)).
Proof.
  intros Hw Hh Hoks. rewrite Hw, Hh. unfold logged_events at 1.
  rewrite filter_concat, !concat_map, !map_map, flat_map_concat_map.
  f_equal. apply map_ext_in. intros e [_ He]%in_seq. simpl in He.
  fold (logged_events (epoch_events e (history st))).
  pose proof (Hoks e He) as Hok.
  rewrite (epoch_ok_logged n e _ lens _ lens_n' Hok).
  apply list_eq. intros j. rewrite !list_lookup_fmap.
  destruct (decide (j < n - 1)) as [Hj|Hj].
  - rewrite lookup_seq_lt by assumption. rewrite lookup_take_lt by assumption.
    destruct (lookup_lt_is_Some_2 (epoch_events e (history st)) j) as [ev Hev].
    { rewrite (epoch_ok_length _ _ _ _ _ Hok), lens_n'. lia. }
    rewrite Hev. simpl.
    destruct (epoch_ok_event _ _ _ _ _ _ _ Hok Hev)
      as (len & _ & _ & _ & _ & Hct & Hfrac & _).
    unfold progress_of. by rewrite Hct, Hfrac.
  - rewrite lookup_seq_ge by lia. rewrite lookup_take_ge by lia. reflexivity.
Qed.

End RunExtras.

Section Independence.
Context {Tensor1 Model1 Loss1 Tensor2 Model2 Loss2 : Type}.
Variable tfms1 : nat -> Pets.Path -> Result Tensor1.
Variable tfms2 : nat -> Pets.Path -> Result Tensor2.
Variable fit1 : Model1 -> list Tensor1 -> list nat -> Model1 * Loss1.
Variable fit2 : Model2 -> list Tensor2 -> list nat -> Model2 * Loss2.
Variable clock1 clock2 : nat -> Q.
Variable config : Config.
Variable dataset_files : list Pets.Path.


End Independence.

Section Experiments.
Context {Tensor Model Loss : Type}.
Variable tfms_load_image : nat -> Pets.Path -> Result Tensor.
Variable fit : Model -> list Tensor -> list nat -> Model * Loss.
Variable perf_counter : nat -> Q.
Variable config : Config.
Variable dataset_files : list Pets.Path.
Hypothesis Hclock : clock_increasing perf_counter.
Hypothesis Hb : 0 < batch_size config.
Hypothesis Hfiles : Forall (sample_ok tfms_load_image (image_size config)) dataset_files.

Lemma clock_increasing_shift offset :
  clock_increasing (fun j => perf_counter (offset + j)).
Proof. intros i j Hij. apply Hclock. lia. Qed.


End Experiments.

(** ** Configuration and epoch boundaries *)
Section ConfigExtras.

(** X14: [check_cuda], which [train] applies to the shared namespace at
    every experiment, changes nothing after its first application and never
    changes [batch_size], [epochs] or [image_size]; with CUDA it forces
    [device = "cuda"] and mixed precision whatever the command line said,
    without CUDA it returns the namespace as it is. *)
Theorem check_cuda_repeated (cuda : bool) (config : Namespace) (k : nat) :
  Nat.iter (S k) (check_cuda cuda) config = check_cuda cuda config /\
  loop_config (check_cuda cuda config) = loop_config config /\
  (cuda = true ->
     ns_device (check_cuda cuda config) = "cuda"%string /\
     ns_mixed_precision (check_cuda cuda config) = true) /\
  (cuda = false -> check_cuda cuda config = config).
Proof.
  split_and!.
  - induction k as [|k IH]; [reflexivity|].
    change (Nat.iter (S (S k)) (check_cuda cuda) config)
      with (check_cuda cuda (Nat.iter (S k) (check_cuda cuda) config)).
    rewrite IH. by destruct cuda.
  - by destruct cuda.
  - by intros ->.
  - by intros ->.
Qed.

(** X15: for a positive batch size, [math.ceil(len / batch_size)] is the
    least number [n] of batches with [len <= n * batch_size]; it is 0 only
    for an empty dataset. *)
Theorem n_steps_per_epoch_bounds (len bs : nat) :
  0 < bs ->
  exists n, n_steps_per_epoch len bs = Ok n /\
            len <= n * bs /\
            (forall k, len <= k * bs -> n <= k) /\
            (n = 0 <-> len = 0).
Proof.
  intros Hbs. exists (ceil_div len bs).
  split; [by apply n_steps_per_epoch_ceil|].
  unfold ceil_div.
  pose proof (Nat.div_mod_eq len bs) as Hdm.
  pose proof (Nat.mod_upper_bound len bs ltac:(lia)) as Hr.
  set (q := len / bs) in *. set (r := len mod bs) in *. clearbody q r.
  destruct (Nat.eqb_spec r 0) as [Hr0|Hr0]; split_and!; nia.
Qed.

End ConfigExtras.

Section BoundaryExtras.
Context {Tensor Model Loss : Type}.
Variable tfms_load_image : nat -> Pets.Path -> Result Tensor.
Variable fit : Model -> list Tensor -> list nat -> Model * Loss.
Variable perf_counter : nat -> Q.
Variable config : Config.
Variable dataset_files : list Pets.Path.
Hypothesis Hclock : clock_increasing perf_counter.
Hypothesis Hb : 0 < batch_size config.
Hypothesis Hfiles : Forall (sample_ok tfms_load_image (image_size config)) dataset_files.

Lemma frac_at_boundary n e s :
  s + 1 = n -> (Qnat (s + 1 + n * e) / Qnat n == Qnat (e + 1))%Q.
Proof.
  intros Hs. assert (~ Qnat n == 0)%Q as Hn by (apply Qnat_nonzero; lia).
  replace (s + 1 + n * e) with ((e + 1) * n) by lia.
  rewrite <- Qnat_mult. by apply Qdiv_mult_l.
Qed.

(** X16: in a run that completes, the batches whose record is not logged
    are exactly those whose [train/epoch] is a whole number, namely
    [epoch + 1] at the final batch of the epoch. *)
Theorem unlogged_iff_whole_epoch (model0 : Model) :
  exists st,
    train tfms_load_image fit perf_counter config dataset_files model0 = Ok st /\
    forall ev, ev ∈ history st ->
      (ev_logged ev = false <->
       (train_epoch (ev_metrics ev) == Qnat (ev_epoch ev + 1))%Q) /\
      (ev_logged ev = false <->
       exists z : Z, (train_epoch (ev_metrics ev) == inject_Z z)%Q).
Proof.
  destruct (train_run tfms_load_image fit perf_counter config dataset_files
              Hclock Hb Hfiles model0)
    as (st & Hrun & Hex & Hst & Hw & Hh & Hoks & Hchain).
  exists st. split; [exact Hrun|]. intros ev Hev.
  destruct (train_events config dataset_files Hb _ Hh Hoks ev Hev)
    as (_ & Hs & len & _ & Hok).
  destruct Hok as (_ & _ & _ & _ & Hfrac & _ & _ & Hlog).
  set (n := ceil_div (length dataset_files) (batch_size config)) in *.
  destruct (Nat.ltb_spec (ev_step ev + 1) n) as [Hlt|Hge].
  - pose proof (frac_between n (ev_epoch ev) (ev_step ev) Hlt) as [Hlo Hhi].
    rewrite <- Hfrac in Hlo, Hhi. rewrite Hlog. split.
    + split; [discriminate|]. intros Heq. rewrite Heq in Hhi.
      by apply Qlt_irrefl in Hhi.
    + split; [discriminate|]. intros [z Hz]. rewrite Hz in Hlo, Hhi.
      unfold Qnat in Hlo, Hhi. rewrite <- Zlt_Qlt in Hlo, Hhi. lia.
  - assert (ev_step ev + 1 = n) as Hlast by lia.
    pose proof (frac_at_boundary n (ev_epoch ev) (ev_step ev) Hlast) as Heq.
    rewrite <- Hfrac in Heq. rewrite Hlog. split.
    + split; [by intros _|reflexivity].
    + split; [|reflexivity]. intros _. by exists (Z.of_nat (ev_epoch ev + 1)).
Qed.

End BoundaryExtras.

(** ** The further properties on the small runs *)

Section ExtraWitnesses.
Import Re Pets.

Ltac run_hyps :=
  first [ intros i j Hij; unfold demo_clock, Qnat; rewrite <- Zlt_Qlt; lia
        | vm_compute; lia
        | apply sample_okb_Forall; vm_compute; reflexivity ].

Lemma re_match_pat_longest_witness :
  re_match pat "american_pit_bull_terrier_3.jpg" = Some "american_pit"%string /\
  length (list_ascii_of_string "american_p") <= String.length "american_pit".
Proof.
  split; [reflexivity|].
  destruct (re_match_pat_longest "american_pit_bull_terrier_3.jpg" "american_pit" eq_refl)
    as (_ & _ & Hlongest).
  apply (Hlongest (list_ascii_of_string "american_p")
                  (list_ascii_of_string "it_bull_terrier_3.jpg") eq_refl).
  exists (list_ascii_of_string "american"), (list_ascii_of_string "_p").
  split; [reflexivity|]. split; [repeat constructor|]. split; [simpl; lia|].
  exists (list_ascii_of_string "_"), (list_ascii_of_string "p").
  split; [reflexivity|]. split; [repeat constructor|]. split; [simpl; lia|].
  exists (list_ascii_of_string "p"), [].
  split; [reflexivity|]. split; [repeat constructor|]. split; [simpl; lia|].
  reflexivity.
Defined.

Lemma label_of_vocab_name_witness :
  re_match pat (name ["PETS"; "images"; "Maine_Coon_12.jpg"]%string)
  = Some "Maine_Coon"%string /\
  label_of ["PETS"; "images"; "Maine_Coon_12.jpg"]%string = Ok 6.
Proof.
  apply (label_of_vocab_name ["PETS"; "images"; "Maine_Coon_12.jpg"]%string
           "Maine_Coon" "1" "2.jpg" 6); reflexivity.
Defined.

Lemma getitem_Ok_inv_witness :
  29 < length vocab /\
  exists file tok,
    list_getitem demo_files 1 = Ok file /\
    demo_tfms 128 file = Ok tt /\
    re_match pat (name file) = Some tok /\
    vocab !! 29 = Some tok.
Proof.
  apply (getitem_Ok_inv demo_tfms (Pets.Build demo_files 128) 1 tt 29).
  vm_compute. reflexivity.
Defined.

Lemma getitem_index_witness :
  __getitem__ demo_tfms (Pets.Build demo_files 128) 7 = Raise IndexError /\
  __getitem__ demo_tfms (Pets.Build demo_files 128) (-1)
  = __getitem__ demo_tfms (Pets.Build demo_files 128) 6.
Proof.
  destruct (getitem_index demo_tfms (Pets.Build demo_files 128) 7) as (Hout & _ & _).
  destruct (getitem_index demo_tfms (Pets.Build demo_files 128) (-1)) as (_ & Hneg & _).
  split; [apply Hout; vm_compute; left; discriminate|].
  apply Hneg. vm_compute. split; [discriminate|reflexivity].
Defined.

Lemma train_bad_file_aborts_witness :
  ~ is_Ok (train demo_tfms demo_fit demo_clock demo_config
             (demo_files ++ [["PETS"; "images"; "tabby_cat_1.jpg"]%string]) 0).
Proof.
  apply (train_bad_file_aborts demo_tfms demo_fit demo_clock demo_config
           (demo_files ++ [["PETS"; "images"; "tabby_cat_1.jpg"]%string]) 0
           7 ["PETS"; "images"; "tabby_cat_1.jpg"]%string).
  - reflexivity.
  - intros [_ [k Hk]]. vm_compute in Hk. discriminate Hk.
  - vm_compute. lia.
Defined.

Lemma train_empty_dataset_witness :
  train demo_tfms demo_fit demo_clock demo_config [] 0
  = Ok {| example_ct := 0; step_ct := 0; model := 0; clock := 2;
          wandb_log := []; history := [] |}.
Proof.
  apply (train_empty_dataset demo_tfms demo_fit demo_clock demo_config 0).
  vm_compute. lia.
Defined.

Lemma train_stalled_clock_witness :
  train demo_tfms demo_fit (fun _ => 0%Q) demo_config demo_files 0
  = Raise ZeroDivisionError.
Proof.
  apply (train_stalled_clock demo_tfms demo_fit (fun _ => 0%Q) demo_config demo_files 0).
  - vm_compute. lia.
  - vm_compute. lia.
  - discriminate.
  - apply sample_okb_Forall. vm_compute. reflexivity.
  - reflexivity.
Defined.

Lemma train_single_batch_logs_nothing_witness :
  exists st,
    train demo_tfms demo_fit demo_clock (mkConfig 8 2 128) demo_files 0 = Ok st /\
    wandb_log st = [] /\ length (history st) = 2 /\ example_ct st = 14.
Proof.
  destruct (train_single_batch_logs_nothing demo_tfms demo_fit demo_clock
              (mkConfig 8 2 128) demo_files)
    with (model0 := 0) as (st & Hrun & Hlog & Hlen & Hex);
    [run_hyps..|vm_compute; lia|].
  exists st. split; [exact Hrun|]. split; [exact Hlog|]. split; [exact Hlen|exact Hex].
Defined.

Lemma train_epoch_by_batch_number_witness :
  exists st, demo_train = Ok st /\
    map (fun ev => train_epoch (ev_metrics ev)) (history st)
    = [1 # 4; 2 # 4; 3 # 4; 4 # 4; 5 # 4; 6 # 4; 7 # 4; 8 # 4]%Q /\
    forall i j ev1 ev2, i < j ->
      history st !! i = Some ev1 -> history st !! j = Some ev2 ->
      (train_epoch (ev_metrics ev1) < train_epoch (ev_metrics ev2))%Q.
Proof.
  destruct (train_epoch_by_batch_number demo_tfms demo_fit demo_clock
              demo_config demo_files)
    with (model0 := 0) as (st & Hrun & _ & Hincr);
    [run_hyps..|].
  exists st. split; [exact Hrun|]. split; [|exact Hincr].
  revert Hrun. vm_compute. intros [= <-]. reflexivity.
Defined.

Lemma train_throughput_positive_witness :
  exists st, demo_train = Ok st /\
    forall ev, ev ∈ history st ->
      (0 < samples_per_sec (ev_metrics ev))%Q /\
      (0 < samples_per_sec_epoch (ev_metrics ev))%Q.
Proof.
  destruct (train_throughput_positive demo_tfms demo_fit demo_clock
              demo_config demo_files)
    with (model0 := 0) as (st & Hrun & Hpos);
    [run_hyps..|].
  exists st. split; [exact Hrun|]. intros ev Hev.
  destruct (Hpos ev Hev) as (_ & _ & H1 & H2). split; [exact H1|exact H2].
Defined.



Lemma check_cuda_repeated_witness :
  Nat.iter 3 (check_cuda true) (parse_args_defaults None)
  = check_cuda true (parse_args_defaults None) /\
  ns_device (check_cuda true (parse_args_defaults None)) = "cuda"%string /\
  ns_mixed_precision (check_cuda true (parse_args_defaults None)) = true.
Proof.
  destruct (check_cuda_repeated true (parse_args_defaults None) 2) as (Hit & _ & Hcuda & _).
  split; [exact Hit|]. apply Hcuda. reflexivity.
Defined.

Lemma n_steps_per_epoch_bounds_witness :
  exists n, n_steps_per_epoch 7 2 = Ok n /\ 7 <= n * 2 /\
            (forall k, 7 <= k * 2 -> n <= k) /\ (n = 0 <-> 7 = 0).
Proof.
  apply (n_steps_per_epoch_bounds 7 2). lia.
Defined.

Lemma unlogged_iff_whole_epoch_witness :
  exists st, demo_train = Ok st /\
    map (fun ev => (ev_logged ev, train_epoch (ev_metrics ev))) (history st)
    = [(true, 1 # 4); (true, 2 # 4); (true, 3 # 4); (false, 4 # 4);
       (true, 5 # 4); (true, 6 # 4); (true, 7 # 4); (false, 8 # 4)]%Q /\
    forall ev, ev ∈ history st ->
      ev_logged ev = false <->
      exists z : Z, (train_epoch (ev_metrics ev) == inject_Z z)%Q.
Proof.
  destruct (unlogged_iff_whole_epoch demo_tfms demo_fit demo_clock
              demo_config demo_files)
    with (model0 := 0) as (st & Hrun & Hiff);
    [run_hyps..|].
  exists st. split; [exact Hrun|]. split.
  - revert Hrun. vm_compute. intros [= <-]. reflexivity.
  - intros ev Hev. exact (proj2 (Hiff ev Hev)).
Defined.

End ExtraWitnesses.
